(** * tsd-publicbucketscanner: a shallow embedding of [main.py]

    The scanner turns a domain into six candidate bucket names, expands
    each into three provider URLs, fetches every URL once and classifies
    the response by substring signatures.

    Python [str] values are modelled by [string]; the network and the
    resolver are the two collaborators of the program and are kept
    abstract in the class [Net].  Exceptions, the root logger, standard
    output and the list of URLs handed to [requests.get] are threaded
    through a small state-and-exception monad. *)

From Stdlib Require Import String Ascii List ZArith Bool Arith Lia.
Import ListNotations.
Open Scope string_scope.

(** ** Python string operations used by the program *)

(** [sub in s] *)
Fixpoint contains (sub s : string) : bool :=
  if prefix sub s then true
  else match s with
       | EmptyString => false
       | String _ s' => contains sub s'
       end.

(** [s.replace(old, new)] for one-character [old] and [new] *)
Fixpoint str_replace (old new : ascii) (s : string) : string :=
  match s with
  | EmptyString => EmptyString
  | String c s' =>
      String (if Ascii.eqb c old then new else c) (str_replace old new s')
  end.

(** [s[:n]] *)
Definition slice_to (n : nat) (s : string) : string := substring 0 n s.

Definition newline : string := String (ascii_of_nat 10) EmptyString.

(** What "the body contains the literal substring" means. *)
Definition Substring (sub s : string) : Prop :=
  exists pre post, s = pre ++ sub ++ post.

(** ** Regular expressions, as far as [is_valid_domain] needs them *)

Module Re.

(** [Class p] is a bracket expression or a literal, [Repeat lo hi r] is
    [r{lo,hi}], with [hi = None] for [r{lo,}]; [r+] is [Repeat 1 None r]. *)
Inductive regex : Type :=
| Void
| Eps
| Class (p : ascii -> bool)
| Seq (r1 r2 : regex)
| Alt (r1 r2 : regex)
| Repeat (lo : nat) (hi : option nat) (r : regex).

Definition within (lo : nat) (hi : option nat) : bool :=
  match hi with
  | Some h => (lo <=? h)%nat
  | None => true
  end.

Fixpoint nullable (r : regex) : bool :=
  match r with
  | Void => false
  | Eps => true
  | Class _ => false
  | Seq r1 r2 => nullable r1 && nullable r2
  | Alt r1 r2 => nullable r1 || nullable r2
  | Repeat lo hi r1 => within lo hi && ((lo =? 0)%nat || nullable r1)
  end.

(** Brzozowski derivative: the words [w] such that [c :: w] matches. *)
Fixpoint deriv (c : ascii) (r : regex) : regex :=
  match r with
  | Void => Void
  | Eps => Void
  | Class p => if p c then Eps else Void
  | Seq r1 r2 =>
      if nullable r1
      then Alt (Seq (deriv c r1) r2) (deriv c r2)
      else Seq (deriv c r1) r2
  | Alt r1 r2 => Alt (deriv c r1) (deriv c r2)
  | Repeat lo hi r1 =>
      match hi with
      | Some 0 => Void
      | _ => Seq (deriv c r1) (Repeat (pred lo) (option_map pred hi) r1)
      end
  end.

(** The whole of [s] matches [r]. *)
Fixpoint fullmatch (r : regex) (s : string) : bool :=
  match s with
  | EmptyString => nullable r
  | String c s' => fullmatch (deriv c r) s'
  end.

(** [re.match("^" r "$", s)] succeeds: [$] holds at the end of the
    string and also just before a newline that ends the string. *)
Definition match_anchored (r : regex) (s : string) : bool :=
  fullmatch (Seq r (Repeat 0 (Some 1) (Class (Ascii.eqb (ascii_of_nat 10))))) s.

(** The words of a regular expression, for reference: [pow L n] is the
    concatenation of [n] words of [L]. *)
Fixpoint pow (L : string -> Prop) (n : nat) (s : string) : Prop :=
  match n with
  | O => s = EmptyString
  | S n' => exists s1 s2, s = s1 ++ s2 /\ L s1 /\ pow L n' s2
  end.

Fixpoint lang (r : regex) (s : string) : Prop :=
  match r with
  | Void => False
  | Eps => s = EmptyString
  | Class p => exists c, s = String c EmptyString /\ p c = true
  | Seq r1 r2 => exists s1 s2, s = s1 ++ s2 /\ lang r1 s1 /\ lang r2 s2
  | Alt r1 r2 => lang r1 s \/ lang r2 s
  | Repeat lo hi r1 =>
      exists n, (lo <= n)%nat /\ within n hi = true /\ pow (lang r1) n s
  end.

Definition between (lo hi c : ascii) : bool :=
  (nat_of_ascii lo <=? nat_of_ascii c)%nat && (nat_of_ascii c <=? nat_of_ascii hi)%nat.

Definition alpha (c : ascii) : bool := between "a"%char "z"%char c || between "A"%char "Z"%char c.
Definition alnum (c : ascii) : bool := alpha c || between "0"%char "9"%char c.
Definition alnum_hyphen (c : ascii) : bool := alnum c || Ascii.eqb c "-"%char.
Definition lit (x : ascii) : regex := Class (Ascii.eqb x).

End Re.

(** The pattern of line 17, between its anchors:
    [[a-zA-Z0-9][a-zA-Z0-9-]{1,61}[a-zA-Z0-9](?:\.[a-zA-Z]{2,})+] *)
Definition domain_pattern : Re.regex :=
  Re.Seq (Re.Class Re.alnum)
    (Re.Seq (Re.Repeat 1 (Some 61) (Re.Class Re.alnum_hyphen))
       (Re.Seq (Re.Class Re.alnum)
          (Re.Repeat 1 None
             (Re.Seq (Re.lit "."%char) (Re.Repeat 2 None (Re.Class Re.alpha)))))).


(** ** Exceptions, responses and the two collaborators *)

(** [RequestException] stands for [requests.exceptions.RequestException]
    and its subclasses ([HTTPError], [ConnectionError], [Timeout], ...);
    the string is what [str(e)] gives. *)
Inductive exn : Type :=
| RequestException (e : string)
| gaierror (e : string)
| OtherException (e : string).

Inductive result (A : Type) : Type :=
| Return (a : A)
| Raise (x : exn).

Arguments Return {A} a.
Arguments Raise {A} x.

Record Response : Type := mkResponse {
  status_code : Z;
  text : string
}.

(** The resolver behind [socket.gethostbyname], the transport behind
    [requests.get], and the text of the [HTTPError] that
    [raise_for_status] builds.  A call may change the world. *)
Class Net : Type := {
  World : Type;
  resolver : string -> World -> result string * World;
  transport : string -> World -> result Response * World;
  HTTPError_str : Response -> string
}.

Inductive level : Type := DEBUG | INFO | ERROR.

Definition levelno (l : level) : Z :=
  match l with
  | DEBUG => 10
  | INFO => 20
  | ERROR => 40
  end.

(** [root_level] is the level of the root logger, [log] the records it has
    emitted, [stdout] the lines printed, [requested] the URLs handed to
    [requests.get] so far, oldest first. *)
Record state `{Net} : Type := mkState {
  world : World;
  root_level : level;
  log : list (level * string);
  stdout : list string;
  requested : list string
}.

Arguments mkState {_} _ _ _ _ _.

(** ** The monad of the embedding *)

Definition M `{Net} (A : Type) : Type := state -> result A * state.

Definition ret `{Net} {A : Type} (a : A) : M A := fun s => (Return a, s).

Definition bind `{Net} {A B : Type} (m : M A) (k : A -> M B) : M B :=
  fun s =>
    match m s with
    | (Return a, s') => k a s'
    | (Raise x, s') => (Raise x, s')
    end.

Definition raise `{Net} {A : Type} (x : exn) : M A := fun s => (Raise x, s).

(** [try: body except ...: handler]; [handler x = None] when no clause
    catches [x]. *)
Definition try_except `{Net} {A : Type}
    (body : M A) (handler : exn -> option (M A)) : M A :=
  fun s =>
    match body s with
    | (Return a, s') => (Return a, s')
    | (Raise x, s') =>
        match handler x with
        | Some h => h s'
        | None => (Raise x, s')
        end
    end.

Notation "x <- c1 ;; c2" := (bind c1 (fun x => c2))
  (at level 61, c1 at next level, right associativity).
Notation "c1 ;; c2" := (bind c1 (fun _ => c2))
  (at level 61, right associativity).

(** ** Library calls *)

(** The state after the resolver has answered in world [w]. *)
Definition resolved `{Net} (w : World) (s : state) : state :=
  mkState w (root_level s) (log s) (stdout s) (requested s).

(** The state after [url] was requested and the transport answered in
    world [w]. *)
Definition fetched `{Net} (url : string) (w : World) (s : state) : state :=
  mkState w (root_level s) (log s) (stdout s) (requested s ++ [url]).

Definition socket_gethostbyname `{Net} (host : string) : M string :=
  fun s => let (r, w) := resolver host (world s) in (r, resolved w s).

Definition requests_get `{Net} (url : string) : M Response :=
  fun s => let (r, w) := transport url (world s) in (r, fetched url w s).

(** [Response.raise_for_status]: an [HTTPError] for 4xx and 5xx. *)
Definition is_error_status (r : Response) : bool :=
  (400 <=? status_code r)%Z && (status_code r <? 600)%Z.

Definition raise_for_status `{Net} (r : Response) : M unit :=
  if is_error_status r then raise (RequestException (HTTPError_str r))
  else ret tt.

(** A record passes the root logger when its level is at least the
    logger's. *)
Definition logged `{Net} (l : level) (msg : string) (s : state) : state :=
  if (levelno (root_level s) <=? levelno l)%Z
  then mkState (world s) (root_level s) (log s ++ [(l, msg)])
               (stdout s) (requested s)
  else s.

Definition logging_log `{Net} (l : level) (msg : string) : M unit :=
  fun s => (Return tt, logged l msg s).

Definition logging_info `{Net} := logging_log INFO.
Definition logging_debug `{Net} := logging_log DEBUG.
Definition logging_error `{Net} := logging_log ERROR.

Definition setLevel `{Net} (l : level) : M unit :=
  fun s =>
    (Return tt, mkState (world s) l (log s) (stdout s) (requested s)).

Definition printed `{Net} (line : string) (s : state) : state :=
  mkState (world s) (root_level s) (log s) (stdout s ++ [line]) (requested s).

Definition print `{Net} (line : string) : M unit :=
  fun s => (Return tt, printed line s).

(** ** The program *)

Definition is_valid_domain `{Net} (domain : string) : M bool :=
  if negb (Re.match_anchored domain_pattern domain) then ret false
  else
    try_except
      (_ <- socket_gethostbyname domain ;; ret true)
      (fun x => match x with
                | gaierror _ => Some (ret false)
                | _ => None
                end).

(** The six f-strings of [check_bucket_access], lines 37, 42, 47, 52, 57
    and 62. *)
Definition msg_listable (bucket_url : string) : string :=
  "Bucket " ++ bucket_url ++ " is publicly listable.".

Definition msg_readable_gcs (bucket_url : string) : string :=
  "Bucket " ++ bucket_url ++ " appears to be publicly readable (GCS).".

Definition msg_listable_azure (bucket_url : string) : string :=
  "Bucket " ++ bucket_url ++ " appears to be publicly listable (Azure).".

Definition msg_likely_not (bucket_url body : string) : string :=
  "Bucket " ++ bucket_url
  ++ " is likely not publicly accessible or doesn't exist.  Received: "
  ++ slice_to 100 body ++ "...".

Definition msg_does_not_appear (bucket_url body : string) : string :=
  "Bucket " ++ bucket_url
  ++ " does not appear to be publicly accessible. Received: "
  ++ slice_to 100 body ++ "...".

Definition msg_error (bucket_url e : string) : string :=
  "Error checking bucket " ++ bucket_url ++ ": " ++ e.

Definition check_bucket_access `{Net} (bucket_url : string) : M bool :=
  try_except
    (response <- requests_get bucket_url ;;
     raise_for_status response ;;
     if contains "ListBucketResult" (text response) then
       logging_info (msg_listable bucket_url) ;;
       ret true
     else if contains "Contents" (text response)
             && contains "Name" (text response) then
       logging_info (msg_readable_gcs bucket_url) ;;
       ret true
     else if contains "EnumerationResults" (text response) then
       logging_info (msg_listable_azure bucket_url) ;;
       ret true
     else if contains "AccessDenied" (text response)
             || contains "NoSuchBucket" (text response) then
       logging_debug (msg_likely_not bucket_url (text response)) ;;
       ret false
     else
       logging_debug (msg_does_not_appear bucket_url (text response)) ;;
       ret false)
    (fun x => match x with
              | RequestException e =>
                  Some (logging_error (msg_error bucket_url e) ;; ret false)
              | _ => None
              end).

Definition generate_bucket_names (domain : string) : list string :=
  [ domain ++ "-bucket";
    "bucket-" ++ domain;
    domain;
    str_replace "."%char "-"%char domain;
    domain ++ "-public";
    "public-" ++ domain ].

(** The list built at lines 91-95 for one bucket name. *)
Definition bucket_urls (bucket_name : string) : list string :=
  [ "https://" ++ bucket_name ++ ".s3.amazonaws.com";
    "https://storage.googleapis.com/" ++ bucket_name;
    "https://" ++ bucket_name ++ ".blob.core.windows.net" ].

(** The inner loop, lines 97-99; [accessible_buckets] is the list the
    loop appends to. *)
Fixpoint scan_urls `{Net} (urls : list string) (accessible_buckets : list string)
    : M (list string) :=
  match urls with
  | [] => ret accessible_buckets
  | bucket_url :: rest =>
      ok <- check_bucket_access bucket_url ;;
      scan_urls rest (if ok : bool then accessible_buckets ++ [bucket_url]
                      else accessible_buckets)
  end.

(** The outer loop, lines 89-99. *)
Fixpoint scan_names `{Net} (bucket_names : list string)
    (accessible_buckets : list string) : M (list string) :=
  match bucket_names with
  | [] => ret accessible_buckets
  | bucket_name :: rest =>
      acc <- scan_urls (bucket_urls bucket_name) accessible_buckets ;;
      scan_names rest acc
  end.

Fixpoint print_each `{Net} (lines : list string) : M unit :=
  match lines with
  | [] => ret tt
  | bucket_url :: rest => print ("- " ++ bucket_url) ;; print_each rest
  end.

Definition scan_domain `{Net} (domain : string) : M unit :=
  valid <- is_valid_domain domain ;;
  if negb valid then
    logging_error ("Invalid domain: " ++ domain)
  else
    accessible_buckets <- scan_names (generate_bucket_names domain) [] ;;
    match accessible_buckets with
    | _ :: _ =>
        print (newline ++ "Publicly accessible buckets found for domain "
               ++ domain ++ ":") ;;
        print_each accessible_buckets
    | [] =>
        print ("No publicly accessible buckets found for domain "
               ++ domain ++ ".")
    end.

(** [main], after [argparse] has produced [args.domain] and
    [args.verbose]. *)
Definition main `{Net} (domain : string) (verbose : bool) : M unit :=
  (if verbose then setLevel DEBUG else ret tt) ;;
  scan_domain domain.

(** The probe targets of a domain, in the order the two loops visit them. *)
Definition probe_targets (domain : string) : list string :=
  flat_map bucket_urls (generate_bucket_names domain).

(** ** Vocabulary of the statements *)

(** The probe of [url] in world [w] fails with text [e] and leaves the
    world [w']: either [requests.get] raises, or it answers with a status
    that [raise_for_status] turns into an [HTTPError]. *)
Definition probe_fails `{Net} (url : string) (w : World) (e : string)
    (w' : World) : Prop :=
  transport url w = (Raise (RequestException e), w')
  \/ exists r, transport url w = (Return r, w')
              /\ is_error_status r = true /\ e = HTTPError_str r.

(** [requests.get] raises nothing outside the [RequestException] family. *)
Definition transport_contract `{Net} : Prop :=
  forall url w,
    match fst (transport url w) with
    | Return _ => True
    | Raise (RequestException _) => True
    | Raise _ => False
    end.

(** A body carries one of the three signatures that make
    [check_bucket_access] return [True]. *)
Definition accessible_signature (body : string) : Prop :=
  Substring "ListBucketResult" body
  \/ (Substring "Contents" body /\ Substring "Name" body)
  \/ Substring "EnumerationResults" body.

(** What [replace('.', '-')] does to one character. *)
Definition dot_to_hyphen (c : ascii) : ascii :=
  if Ascii.eqb c "."%char then "-"%char else c.

(** ** The hostname grammar of the specification

    Written from the words of the data model, to be compared with
    [domain_pattern]: labels of 1 to 63 alphanumeric or hyphen characters,
    neither starting nor ending with a hyphen, at least one dot, and a
    final label of at least two letters. *)

(** [s.split(".")] *)
Fixpoint labels (s : string) : list string :=
  match s with
  | EmptyString => [EmptyString]
  | String c s' =>
      if Ascii.eqb c "."%char then EmptyString :: labels s'
      else match labels s' with
           | l :: ls => String c l :: ls
           | [] => [String c EmptyString]
           end
  end.

Definition all_chars (p : ascii -> bool) (s : string) : bool :=
  forallb p (list_ascii_of_string s).

Definition is_hyphen (c : ascii) : bool := Ascii.eqb c "-"%char.

Definition label_ok (l : string) : bool :=
  (1 <=? String.length l)%nat && (String.length l <=? 63)%nat
  && all_chars Re.alnum_hyphen l
  && negb (prefix "-" l)
  && negb (match String.get (pred (String.length l)) l with
           | Some c => is_hyphen c
           | None => false
           end).

Definition hostname_grammar (s : string) : bool :=
  let ls := labels s in
  (2 <=? List.length ls)%nat
  && forallb label_ok ls
  && (2 <=? String.length (last ls EmptyString))%nat
  && all_chars Re.alpha (last ls EmptyString).

(** ** Stub collaborators

    A resolver that answers every name, and a transport that answers each
    URL by a fixed table. *)

Definition stub_net (table : string -> result Response) : Net :=
  {| World := unit;
     resolver := fun _ w => (Return "192.0.2.1", w);
     transport := fun url w => (table url, w);
     HTTPError_str := fun _ => "HTTPError" |}.

(** The state in which [main] starts: [basicConfig(level=logging.INFO)]. *)
Definition initial (net : Net) (w : @World net) : @state net :=
  mkState w INFO [] [] [].

Definition verbose (net : Net) (w : @World net) : @state net :=
  mkState w DEBUG [] [] [].

(** Every URL answers 200 with a body that holds a listing and a denial
    marker. *)
Definition listing_and_denial : Net :=
  stub_net (fun _ => Return (mkResponse 200
    "<ListBucketResult><Code>AccessDenied</Code></ListBucketResult>")).

(** Every URL answers 403 with a listing in the body. *)
Definition forbidden_listing : Net :=
  stub_net (fun _ => Return (mkResponse 403
    "<ListBucketResult></ListBucketResult>")).

(** Every URL answers 200 with the Azure marker next to [Contents] and
    [Name]. *)
Definition azure_with_contents : Net :=
  stub_net (fun _ => Return (mkResponse 200
    "<EnumerationResults><Contents><Name>a</Name></Contents></EnumerationResults>")).

(** Every connection is refused. *)
Definition refusing : Net :=
  stub_net (fun _ => Raise (RequestException "Connection refused")).

(** Every URL answers 200 with an empty body. *)
Definition empty_bodies : Net :=
  stub_net (fun _ => Return (mkResponse 200 "")).

(** Every request fails outside the [RequestException] family. *)
Definition crashing : Net :=
  stub_net (fun _ => Raise (OtherException "unexpected")).



Definition s3_of_first_candidate : string :=
  "https://example.com-bucket.s3.amazonaws.com".

(** ** Vocabulary of the further properties *)

(** The body carries a signature, as the three tests of lines 36, 41 and
    46 decide it. *)
Definition has_signature (body : string) : bool :=
  contains "ListBucketResult" body
  || (contains "Contents" body && contains "Name" body)
  || contains "EnumerationResults" body.

(** What the answer of the transport means for the probe. *)
Definition answer_is_accessible (a : result Response) : bool :=
  match a with
  | Return r => negb (is_error_status r) && has_signature (text r)
  | Raise _ => false
  end.

(** The targets among [urls] whose answer is accessible, when they are
    fetched one after the other starting in world [w]. *)
Fixpoint accessible_among `{Net} (urls : list string) (w : World)
    : list string :=
  match urls with
  | [] => []
  | u :: rest =>
      let (a, w') := transport u w in
      ((if answer_is_accessible a then [u] else [])
       ++ accessible_among rest w')%list
  end.

(** The answer is a response or an exception that
    [check_bucket_access] catches. *)
Definition in_family (a : result Response) : Prop :=
  match a with
  | Return _ => True
  | Raise (RequestException _) => True
  | Raise _ => False
  end.

(** The world after [urls] were fetched one after the other from [w]. *)
Fixpoint world_after `{Net} (urls : list string) (w : World) : World :=
  match urls with
  | [] => w
  | u :: rest => world_after rest (snd (transport u w))
  end.

(** Fetched one after the other from [w], every one of [urls] is
    answered inside the family. *)
Fixpoint in_family_along `{Net} (urls : list string) (w : World) : Prop :=
  match urls with
  | [] => True
  | u :: rest =>
      in_family (fst (transport u w))
      /\ in_family_along rest (snd (transport u w))
  end.

(** The lines that [scan_domain] prints for a list of accessible URLs. *)
Definition summary (domain : string) (accessible : list string)
    : list string :=
  match accessible with
  | [] => ["No publicly accessible buckets found for domain " ++ domain ++ "."]
  | _ :: _ =>
      (newline ++ "Publicly accessible buckets found for domain "
       ++ domain ++ ":")
      :: map (fun bucket_url => "- " ++ bucket_url) accessible
  end.

Definition is_debug (l : level) : bool :=
  match l with
  | DEBUG => true
  | _ => false
  end.

(** The records that a root logger at level INFO lets through. *)
Definition without_debug (recs : list (level * string))
    : list (level * string) :=
  filter (fun r => negb (is_debug (fst r))) recs.

(** [sv] and [si] are two runs of the same program on the same world, the
    first with the root logger at DEBUG, the second at INFO, both started
    with the log [base]. *)
Definition quieter `{Net} (base : list (level * string)) (sv si : state)
    : Prop :=
  world sv = world si
  /\ stdout sv = stdout si
  /\ requested sv = requested si
  /\ root_level sv = DEBUG
  /\ root_level si = INFO
  /\ exists recs, log sv = (base ++ recs)%list
                  /\ log si = (base ++ without_debug recs)%list.

(** [m] behaves alike in two such runs. *)
Definition level_blind `{Net} {A : Type} (m : M A) : Prop :=
  forall base sv si,
    quieter base sv si ->
    fst (m sv) = fst (m si) /\ quieter base (snd (m sv)) (snd (m si)).

(** [".".join(ls)] with one more dot in front. *)
Fixpoint dotted (ls : list string) : string :=
  match ls with
  | [] => EmptyString
  | l :: rest => String "."%char (l ++ dotted rest)
  end.

Definition last_char (s : string) : option ascii :=
  String.get (pred (String.length s)) s.

(** The first label that line 17 accepts: 3 to 63 letters, digits and
    hyphens, the first and the last not a hyphen. *)
Definition first_label_ok (l : string) : bool :=
  (3 <=? String.length l)%nat && (String.length l <=? 63)%nat
  && all_chars Re.alnum_hyphen l
  && match String.get 0 l with
     | Some c => Re.alnum c
     | None => false
     end
  && match last_char l with
     | Some c => Re.alnum c
     | None => false
     end.

(** The labels after it: two letters or more, letters only. *)
Definition later_label_ok (l : string) : bool :=
  (2 <=? String.length l)%nat && all_chars Re.alpha l.

Definition pattern_shape (s : string) : bool :=
  match labels s with
  | l0 :: l1 :: ls => first_label_ok l0 && forallb later_label_ok (l1 :: ls)
  | _ => false
  end.

(** [Some s0] when [s] is [s0] followed by one newline. *)
Fixpoint without_final_newline (s : string) : option string :=
  match s with
  | EmptyString => None
  | String c s' =>
      match s' with
      | EmptyString =>
          if Ascii.eqb c (ascii_of_nat 10) then Some EmptyString else None
      | String _ _ => option_map (String c) (without_final_newline s')
      end
  end.

Definition not_dot (c : ascii) : bool := negb (Ascii.eqb c "."%char).

(** A character that may occur in a name that passes line 17. *)
Definition domain_char (c : ascii) : bool :=
  Re.alnum_hyphen c || Ascii.eqb c "."%char.

(** Occurrences of [c] in [s]. *)
Fixpoint count_char (c : ascii) (s : string) : nat :=
  match s with
  | EmptyString => 0
  | String d s' => (if Ascii.eqb d c then 1 else 0) + count_char c s'
  end.

(** * Properties *)

(** ** The pattern on a few names *)

Example domain_pattern_examples :
  map (Re.match_anchored domain_pattern)
      ["example.com"; "www.example.com"; "a-c.com"; "not a domain";
       "-abc.com"; "abc-.com"; "abc.c"; "t.co"]
  = [true; true; true; false; false; false; false; false].
Proof. vm_compute. reflexivity. Qed.

(** ** The matcher decides the language of the expression *)

Lemma append_empty (s1 s2 : string) :
  s1 ++ s2 = "" -> s1 = "" /\ s2 = "".
Proof. destruct s1; cbn; [auto | discriminate]. Qed.

Lemma append_empty_r (s : string) : s ++ "" = s.
Proof. induction s as [|c s IH]; cbn; [reflexivity | now rewrite IH]. Qed.

Lemma within_le (lo n : nat) (hi : option nat) :
  (lo <= n)%nat -> Re.within n hi = true -> Re.within lo hi = true.
Proof.
  destruct hi as [h|]; cbn; [|reflexivity].
  intros Hle Hn. apply Nat.leb_le in Hn. apply Nat.leb_le. lia.
Qed.

Lemma pow_empty (L : string -> Prop) (n : nat) :
  L "" -> Re.pow L n "".
Proof.
  intros HL. induction n as [|n IH]; cbn; [reflexivity|].
  exists "", "". auto.
Qed.

Lemma nullable_lang (r : Re.regex) :
  Re.nullable r = true <-> Re.lang r "".
Proof.
  induction r as [| |p|r1 IH1 r2 IH2|r1 IH1 r2 IH2|lo hi r1 IH1]; cbn.
  - split; [discriminate | contradiction].
  - split; reflexivity.
  - split; [discriminate | intros (c & E & _); discriminate E].
  - rewrite andb_true_iff, IH1, IH2. split.
    + intros [H1 H2]. exists "", "". auto.
    + intros (s1 & s2 & E & H1 & H2). symmetry in E.
      apply append_empty in E. destruct E as [-> ->]. auto.
  - rewrite orb_true_iff, IH1, IH2. reflexivity.
  - rewrite andb_true_iff, orb_true_iff, IH1. split.
    + intros [Hw [H0|Hn]].
      * apply Nat.eqb_eq in H0. subst lo. exists 0%nat. cbn. auto.
      * exists lo. split; [lia|]. split; [exact Hw|]. apply pow_empty, Hn.
    + intros (n & Hle & Hw & Hp). split; [exact (within_le _ _ _ Hle Hw)|].
      destruct lo as [|lo]; [left; reflexivity|]. right.
      destruct n as [|n]; [lia|]. cbn in Hp.
      destruct Hp as (s1 & s2 & E & H1 & _). symmetry in E.
      apply append_empty in E. destruct E as [-> _]. exact H1.
Qed.

(** A nonempty concatenation of [n] words starts with a nonempty word;
    empty words in front of it are moved behind. *)
Lemma pow_cons (L : string -> Prop) (n : nat) (c : ascii) (s : string) :
  Re.pow L n (String c s) ->
  exists m s1 s2, n = S m /\ s = s1 ++ s2 /\ L (String c s1) /\ Re.pow L m s2.
Proof.
  induction n as [|n IH]; cbn.
  - discriminate.
  - intros (t1 & t2 & E & H1 & H2). destruct t1 as [|d t1]; cbn in E.
    + subst t2. destruct (IH H2) as (m & s1 & s2 & -> & -> & Hh & Hp).
      exists (S m), s1, s2. repeat split; [exact Hh|].
      cbn. exists "", s2. auto.
    + injection E as <- ->. exists n, t1, t2. auto.
Qed.

Lemma deriv_lang (c : ascii) (r : Re.regex) (s : string) :
  Re.lang (Re.deriv c r) s <-> Re.lang r (String c s).
Proof.
  revert s.
  induction r as [| |p|r1 IH1 r2 IH2|r1 IH1 r2 IH2|lo hi r1 IH1];
    intros s; cbn [Re.deriv].
  - split; contradiction.
  - cbn. split; [contradiction | discriminate].
  - destruct (p c) eqn:Hp; cbn.
    + split.
      * intros ->. exists c. auto.
      * intros (d & E & _). now injection E.
    + split; [contradiction|].
      intros (d & E & Hd). injection E as <- _. congruence.
  - assert (Hseq : Re.lang (Re.Seq (Re.deriv c r1) r2) s
                   -> Re.lang (Re.Seq r1 r2) (String c s)).
    { intros (s1 & s2 & -> & H1 & H2). exists (String c s1), s2.
      split; [reflexivity|]. split; [apply IH1, H1 | exact H2]. }
    destruct (Re.nullable r1) eqn:Hn.
    + split.
      * intros [H|H]; [exact (Hseq H)|].
        exists "", (String c s). split; [reflexivity|].
        split; [apply nullable_lang, Hn | apply IH2, H].
      * intros (s1 & s2 & E & H1 & H2). destruct s1 as [|d s1]; cbn in E.
        -- right. subst s2. apply IH2, H2.
        -- injection E as <- ->. left. exists s1, s2.
           split; [reflexivity|]. split; [apply IH1, H1 | exact H2].
    + split; [exact Hseq|].
      intros (s1 & s2 & E & H1 & H2). destruct s1 as [|d s1]; cbn in E.
      * apply nullable_lang in H1. congruence.
      * injection E as <- ->. exists s1, s2.
        split; [reflexivity|]. split; [apply IH1, H1 | exact H2].
  - cbn. rewrite IH1, IH2. reflexivity.
  - assert (Hstep : hi <> Some 0%nat ->
              (Re.lang (Re.Seq (Re.deriv c r1)
                          (Re.Repeat (pred lo) (option_map pred hi) r1)) s
               <-> Re.lang (Re.Repeat lo hi r1) (String c s))).
    { intros Hhi. split.
      - intros (s1 & s2 & -> & H1 & n & Hle & Hw & Hp).
        exists (S n). split; [lia|]. split.
        + destruct hi as [[|h]|]; [congruence| |reflexivity].
          cbn in Hw |- *. exact Hw.
        + cbn. exists (String c s1), s2.
          split; [reflexivity|]. split; [apply IH1, H1 | exact Hp].
      - intros (n & Hle & Hw & Hp).
        destruct (pow_cons _ _ _ _ Hp) as (m & s1 & s2 & -> & -> & H1 & Hm).
        exists s1, s2. split; [reflexivity|]. split; [apply IH1, H1|].
        exists m. split; [lia|]. split; [|exact Hm].
        destruct hi as [[|h]|]; [congruence| |reflexivity].
        cbn in Hw |- *. exact Hw. }
    destruct hi as [[|h]|].
    + split; [contradiction|].
      intros (n & _ & Hw & Hp). cbn in Hw. apply Nat.leb_le in Hw.
      assert (n = 0%nat) by lia. subst n. discriminate Hp.
    + apply Hstep. discriminate.
    + apply Hstep. discriminate.
Qed.

Lemma fullmatch_lang (r : Re.regex) (s : string) :
  Re.fullmatch r s = true <-> Re.lang r s.
Proof.
  revert r. induction s as [|c s IH]; intros r; cbn [Re.fullmatch].
  - apply nullable_lang.
  - rewrite IH. apply deriv_lang.
Qed.

(** [match_anchored] accepts the words of [r], with or without one
    newline after them. *)
Lemma match_anchored_lang (r : Re.regex) (s : string) :
  Re.match_anchored r s = true <->
  Re.lang r s \/ exists s0, s = s0 ++ newline /\ Re.lang r s0.
Proof.
  unfold Re.match_anchored. rewrite fullmatch_lang. cbn [Re.lang]. split.
  - intros (s1 & s2 & -> & H1 & n & _ & Hw & Hp).
    apply Nat.leb_le in Hw. destruct n as [|[|n]]; [| |lia];
      cbn [Re.pow] in Hp.
    + subst s2. left. rewrite append_empty_r. exact H1.
    + destruct Hp as (t1 & t2 & -> & (c & -> & Hc) & ->).
      apply Ascii.eqb_eq in Hc. subst c. right. exists s1. auto.
  - intros [H|(s0 & -> & H)].
    + exists s, "". rewrite append_empty_r. split; [reflexivity|].
      split; [exact H|]. exists 0%nat. repeat split. lia.
    + exists s0, newline. split; [reflexivity|]. split; [exact H|].
      exists 1%nat. split; [lia|]. split; [reflexivity|].
      exists newline, "". split; [reflexivity|]. split; [|reflexivity].
      exists (ascii_of_nat 10). split; [reflexivity | apply Ascii.eqb_refl].
Qed.

(** ** What the pattern of [is_valid_domain] asks of the first label *)

Lemma alnum_is_alnum_hyphen (c : ascii) :
  Re.alnum c = true -> Re.alnum_hyphen c = true.
Proof. intros H. unfold Re.alnum_hyphen. rewrite H. reflexivity. Qed.

(** A word of the pattern starts with three characters of the class
    [[a-zA-Z0-9-]]. *)
Lemma domain_pattern_head (s : string) :
  Re.lang domain_pattern s ->
  exists c1 c2 c3 rest,
    s = String c1 (String c2 (String c3 rest))
    /\ Re.alnum_hyphen c1 = true
    /\ Re.alnum_hyphen c2 = true
    /\ Re.alnum_hyphen c3 = true.
Proof.
  unfold domain_pattern. cbn [Re.lang].
  intros (s1 & s2 & -> & (c1 & -> & H1) & m & s3 & -> &
          (n & Hlo & _ & Hp) & s4 & s5 & -> & (c3 & -> & H3) & _).
  apply alnum_is_alnum_hyphen in H1, H3.
  destruct n as [|n]; [lia|]. cbn [Re.pow] in Hp.
  destruct Hp as (t1 & t2 & -> & (c2 & -> & H2) & Hp).
  destruct n as [|n]; cbn [Re.pow] in Hp.
  - subst t2. exists c1, c2, c3, s5. auto.
  - destruct Hp as (u1 & u2 & -> & (c2' & -> & H2') & _).
    exists c1, c2, c2', (u2 ++ String c3 "" ++ s5). auto.
Qed.

(** A dot among the first three characters makes the match fail. *)
Lemma domain_pattern_short_first_label (domain : string) (i : nat) :
  (i < 3)%nat ->
  String.get i domain = Some "."%char ->
  Re.match_anchored domain_pattern domain = false.
Proof.
  intros Hi Hget.
  destruct (Re.match_anchored domain_pattern domain) eqn:E; [|reflexivity].
  apply match_anchored_lang in E.
  assert (H : exists c1 c2 c3 rest,
             domain = String c1 (String c2 (String c3 rest))
             /\ Re.alnum_hyphen c1 = true
             /\ Re.alnum_hyphen c2 = true
             /\ Re.alnum_hyphen c3 = true).
  { destruct E as [H|(s0 & -> & H)]; apply domain_pattern_head in H;
      destruct H as (c1 & c2 & c3 & rest & -> & H1 & H2 & H3).
    - exists c1, c2, c3, rest. auto.
    - exists c1, c2, c3, (rest ++ newline). auto. }
  destruct H as (c1 & c2 & c3 & rest & -> & H1 & H2 & H3).
  destruct i as [|[|[|i]]]; [| | |lia]; cbn in Hget;
    injection Hget as ->; discriminate.
Qed.

(** ** Substring search *)

Lemma prefix_app (a b : string) : prefix a (a ++ b) = true.
Proof.
  induction a as [|c a IH]; simpl.
  - destruct b; reflexivity.
  - destruct (ascii_dec c c) as [_|ne]; [exact IH | contradiction].
Qed.

Lemma prefix_split (a s : string) :
  prefix a s = true -> exists b, s = a ++ b.
Proof.
  revert s; induction a as [|c a IH]; intros s Hp.
  - exists s; reflexivity.
  - destruct s as [|d s]; simpl in Hp; [discriminate|].
    destruct (ascii_dec c d) as [->|]; [|discriminate].
    destruct (IH s Hp) as [b ->]. exists b; reflexivity.
Qed.

Lemma contains_eq (sub s : string) :
  contains sub s =
  prefix sub s || match s with
                  | EmptyString => false
                  | String _ s' => contains sub s'
                  end.
Proof. destruct s; reflexivity. Qed.

Lemma contains_Substring (sub s : string) :
  contains sub s = true <-> Substring sub s.
Proof.
  split.
  - induction s as [|c s IH]; rewrite contains_eq; intros Hc;
      apply orb_true_iff in Hc; destruct Hc as [Hp|Hc].
    + destruct (prefix_split _ _ Hp) as [b Hb]. exists "", b. exact Hb.
    + discriminate.
    + destruct (prefix_split _ _ Hp) as [b Hb]. exists "", b. exact Hb.
    + destruct (IH Hc) as (pre & post & ->).
      exists (String c pre), post. reflexivity.
  - intros (pre & post & ->).
    induction pre as [|c pre IH]; rewrite contains_eq; apply orb_true_iff.
    + left. exact (prefix_app sub post).
    + right. exact IH.
Qed.

Lemma app_inv_head_str (a x y : string) : a ++ x = a ++ y -> x = y.
Proof.
  induction a as [|c a IH]; simpl; intros E; [exact E|].
  injection E as E. exact (IH E).
Qed.

(** ** One probe *)

Section Probe.
Context `{net : Net}.

Lemma logged_ERROR (msg : string) (s : state) :
  logged ERROR msg s =
  mkState (world s) (root_level s) (log s ++ [(ERROR, msg)])
          (stdout s) (requested s).
Proof. unfold logged. destruct (root_level s); reflexivity. Qed.

(** A response that passes [raise_for_status] is classified by the
    first signature that its body matches. *)
Lemma check_bucket_access_response (url : string) (s : state)
    (r : Response) (w : World) :
  transport url (world s) = (Return r, w) ->
  is_error_status r = false ->
  check_bucket_access url s =
  let s1 := fetched url w s in
  if contains "ListBucketResult" (text r) then
    (Return true, logged INFO (msg_listable url) s1)
  else if contains "Contents" (text r) && contains "Name" (text r) then
    (Return true, logged INFO (msg_readable_gcs url) s1)
  else if contains "EnumerationResults" (text r) then
    (Return true, logged INFO (msg_listable_azure url) s1)
  else if contains "AccessDenied" (text r)
          || contains "NoSuchBucket" (text r) then
    (Return false, logged DEBUG (msg_likely_not url (text r)) s1)
  else
    (Return false, logged DEBUG (msg_does_not_appear url (text r)) s1).
Proof.
  intros Hget Hok.
  unfold check_bucket_access, try_except, bind, requests_get,
    raise_for_status.
  rewrite Hget, Hok. cbv zeta. unfold ret at 1.
  destruct (contains "ListBucketResult" (text r)); [reflexivity|].
  destruct (contains "Contents" (text r) && contains "Name" (text r));
    [reflexivity|].
  destruct (contains "EnumerationResults" (text r)); [reflexivity|].
  destruct (contains "AccessDenied" (text r)
            || contains "NoSuchBucket" (text r)); reflexivity.
Qed.

(** An exception of the [RequestException] family is caught and logged. *)
Lemma check_bucket_access_exception (url : string) (s : state)
    (e : string) (w : World) :
  transport url (world s) = (Raise (RequestException e), w) ->
  check_bucket_access url s =
  (Return false, logged ERROR (msg_error url e) (fetched url w s)).
Proof.
  intros Hget.
  unfold check_bucket_access, try_except, bind, requests_get.
  rewrite Hget. reflexivity.
Qed.

(** A 4xx or 5xx response raises in [raise_for_status] and ends in the
    same handler. *)
Lemma check_bucket_access_error_status (url : string) (s : state)
    (r : Response) (w : World) :
  transport url (world s) = (Return r, w) ->
  is_error_status r = true ->
  check_bucket_access url s =
  (Return false,
   logged ERROR (msg_error url (HTTPError_str r)) (fetched url w s)).
Proof.
  intros Hget Hbad.
  unfold check_bucket_access, try_except, bind, requests_get,
    raise_for_status.
  rewrite Hget, Hbad. reflexivity.
Qed.

End Probe.

Lemma msg_gcs_not_azure (url : string) :
  msg_readable_gcs url <> msg_listable_azure url.
Proof.
  unfold msg_readable_gcs, msg_listable_azure. intros E.
  apply app_inv_head_str, app_inv_head_str in E. discriminate E.
Qed.

Lemma msg_s3_not_azure (url : string) :
  msg_listable url <> msg_listable_azure url.
Proof.
  unfold msg_listable, msg_listable_azure. intros E.
  apply app_inv_head_str, app_inv_head_str in E. discriminate E.
Qed.

Lemma msg_fallthrough_not_denial (url body body' : string) :
  msg_does_not_appear url body <> msg_likely_not url body'.
Proof.
  unfold msg_does_not_appear, msg_likely_not. intros E.
  apply app_inv_head_str, app_inv_head_str in E. discriminate E.
Qed.

(** ** The two loops *)

Section Loops.
Context `{net : Net}.

Lemma requested_logged (l : level) (msg : string) (s : state) :
  requested (logged l msg s) = requested s.
Proof. unfold logged. destruct (_ <=? _)%Z; reflexivity. Qed.

Lemma stdout_logged (l : level) (msg : string) (s : state) :
  stdout (logged l msg s) = stdout s.
Proof. unfold logged. destruct (_ <=? _)%Z; reflexivity. Qed.

Lemma scan_urls_cons (u : string) (rest acc : list string) (s : state) :
  scan_urls (u :: rest) acc s =
  match check_bucket_access u s with
  | (Return ok, s') => scan_urls rest (if ok then acc ++ [u] else acc) s'
  | (Raise x, s') => (Raise x, s')
  end.
Proof. reflexivity. Qed.

Lemma scan_urls_app (urls1 urls2 acc : list string) (s : state) :
  scan_urls (urls1 ++ urls2) acc s =
  match scan_urls urls1 acc s with
  | (Return acc', s') => scan_urls urls2 acc' s'
  | (Raise x, s') => (Raise x, s')
  end.
Proof.
  revert acc s. induction urls1 as [|u urls1 IH]; intros acc s.
  - reflexivity.
  - cbn [app]. rewrite !scan_urls_cons.
    destruct (check_bucket_access u s) as [[ok|x] s1]; [apply IH|reflexivity].
Qed.

(** The nested loops visit the concatenation of the URL triples. *)
Lemma scan_names_flat (names acc : list string) (s : state) :
  scan_names names acc s = scan_urls (flat_map bucket_urls names) acc s.
Proof.
  revert acc s. induction names as [|b names IH]; intros acc s.
  - reflexivity.
  - cbn [flat_map]. rewrite scan_urls_app.
    cbn [scan_names]. unfold bind.
    destruct (scan_urls (bucket_urls b) acc s) as [[acc'|x] s1];
      [apply IH|reflexivity].
Qed.

Lemma probe_fails_denied (u : string) (s : state) (e : string) (w : World) :
  probe_fails u (world s) e w ->
  check_bucket_access u s =
  (Return false, logged ERROR (msg_error u e) (fetched u w s)).
Proof.
  intros [Hraise|(r & Hget & Hbad & ->)].
  - apply check_bucket_access_exception, Hraise.
  - apply check_bucket_access_error_status; assumption.
Qed.

Lemma check_bucket_access_returns (u : string) (s : state) :
  transport_contract ->
  exists ok s', check_bucket_access u s = (Return ok, s')
                /\ requested s' = (requested s ++ [u])%list
                /\ stdout s' = stdout s.
Proof.
  intros Hc. specialize (Hc u (world s)).
  destruct (transport u (world s)) as [[r|x] w] eqn:Hget; cbn [fst] in Hc.
  - destruct (is_error_status r) eqn:Hst.
    + rewrite (check_bucket_access_error_status _ _ _ _ Hget Hst).
      eexists _, _. split; [reflexivity|].
      rewrite requested_logged, stdout_logged. split; reflexivity.
    + rewrite (check_bucket_access_response _ _ _ _ Hget Hst). cbv zeta.
      repeat match goal with
             | |- context [if ?c then _ else _] => destruct c
             end;
        (eexists _, _; split; [reflexivity|];
         rewrite requested_logged, stdout_logged; split; reflexivity).
  - destruct x as [e|e|e]; try contradiction.
    rewrite (check_bucket_access_exception _ _ _ _ Hget).
    eexists _, _. split; [reflexivity|].
    rewrite requested_logged, stdout_logged. split; reflexivity.
Qed.

Lemma scan_urls_returns (urls acc : list string) (s : state) :
  transport_contract ->
  exists acc' s', scan_urls urls acc s = (Return acc', s')
                  /\ requested s' = (requested s ++ urls)%list
                  /\ stdout s' = stdout s.
Proof.
  intros Hc. revert acc s. induction urls as [|u urls IH]; intros acc s.
  - exists acc, s. rewrite app_nil_r. repeat split.
  - rewrite scan_urls_cons.
    destruct (check_bucket_access_returns u s Hc) as (ok & s1 & -> & Hr & Ho).
    destruct (IH (if ok then (acc ++ [u])%list else acc) s1)
      as (acc' & s' & -> & Hr' & Ho').
    exists acc', s'. split; [reflexivity|]. split.
    + rewrite Hr', Hr, <- app_assoc. reflexivity.
    + rewrite Ho'. exact Ho.
Qed.

Lemma is_valid_domain_frame (domain : string) (s s' : state)
    (r : result bool) :
  is_valid_domain domain s = (r, s') ->
  root_level s' = root_level s /\ log s' = log s
  /\ stdout s' = stdout s /\ requested s' = requested s.
Proof.
  unfold is_valid_domain, try_except, bind, socket_gethostbyname, ret.
  destruct (negb _).
  - intros E; injection E as _ <-. repeat split.
  - destruct (resolver domain (world s)) as [[ip|x] w]; [|destruct x];
      intros E; injection E as _ <-; repeat split.
Qed.

End Loops.

(** ** Candidate names *)

Lemma str_replace_length (old new : ascii) (s : string) :
  String.length (str_replace old new s) = String.length s.
Proof. induction s as [|c s IH]; cbn; [reflexivity | now rewrite IH]. Qed.

Lemma str_replace_get (old new : ascii) (s : string) (i : nat) :
  String.get i (str_replace old new s) =
  option_map (fun c => if Ascii.eqb c old then new else c) (String.get i s).
Proof.
  revert i. induction s as [|c s IH]; intros i; cbn.
  - reflexivity.
  - destruct i as [|i]; [reflexivity | apply IH].
Qed.

(** * The claims *)

Section Claims.
Context `{net : Net}.

(** C1.  Priority law: when the transport delivers a response that
    passes [raise_for_status] and whose body contains both
    [ListBucketResult] and [AccessDenied], [check_bucket_access] returns
    [True] through the S3 branch: the listing signature is tested before
    the denial markers. *)
Theorem priority_listing_before_denial
    (url : string) (s : state) (r : Response) (w : World) :
  transport url (world s) = (Return r, w) ->
  is_error_status r = false ->
  Substring "ListBucketResult" (text r) ->
  Substring "AccessDenied" (text r) ->
  check_bucket_access url s =
  (Return true, logged INFO (msg_listable url) (fetched url w s)).
Proof.
  intros Hget Hok Hlist _.
  rewrite (check_bucket_access_response _ _ _ _ Hget Hok). cbv zeta.
  apply contains_Substring in Hlist. rewrite Hlist. reflexivity.
Qed.

(** C2, as the code has it.  A response with a 4xx or 5xx status is
    turned into an [HTTPError] by [raise_for_status]; the handler logs
    it and [check_bucket_access] returns [False], whatever the body
    holds.  The body is never examined. *)
Theorem error_status_is_denied
    (url : string) (s : state) (r : Response) (w : World) :
  transport url (world s) = (Return r, w) ->
  (400 <= status_code r < 600)%Z ->
  check_bucket_access url s =
  (Return false,
   logged ERROR (msg_error url (HTTPError_str r)) (fetched url w s)).
Proof.
  intros Hget Hst.
  apply check_bucket_access_error_status; [exact Hget|].
  unfold is_error_status.
  apply andb_true_iff; split; [apply Z.leb_le | apply Z.ltb_lt]; lia.
Qed.

(** C3, as the code has it.  For every domain [D] the candidates are, in
    this order, [D-bucket], [bucket-D], [D], [D] with every dot turned
    into a hyphen, [D-public] and [public-D]: the first candidate is
    [D-bucket], the second is [bucket-D], and [D] itself comes third. *)
Theorem generate_bucket_names_order (D : string) :
  nth_error (generate_bucket_names D) 0 = Some (D ++ "-bucket")
  /\ nth_error (generate_bucket_names D) 1 = Some ("bucket-" ++ D)
  /\ nth_error (generate_bucket_names D) 2 = Some D
  /\ (exists h, nth_error (generate_bucket_names D) 3 = Some h
                /\ String.length h = String.length D
                /\ forall i, String.get i h
                             = option_map dot_to_hyphen (String.get i D))
  /\ nth_error (generate_bucket_names D) 4 = Some (D ++ "-public")
  /\ nth_error (generate_bucket_names D) 5 = Some ("public-" ++ D)
  /\ nth_error (generate_bucket_names D) 6 = None.
Proof.
  repeat split.
  exists (str_replace "."%char "-"%char D). split; [reflexivity|]. split.
  - apply str_replace_length.
  - intros i. apply str_replace_get.
Qed.

(** C4, as the code has it.  Of the three checks that return [True] the
    Azure check is the last one, after the S3 check and the GCS
    heuristic.  For a response that passes [raise_for_status] and whose
    body contains [EnumerationResults], the result is [True] with
    exactly one of the three diagnostics; it is the Azure diagnostic
    only when the body has no [ListBucketResult] and lacks [Contents] or
    [Name]; with [Contents] and [Name] present it is the S3 diagnostic
    when [ListBucketResult] occurs and the GCS diagnostic otherwise. *)
Theorem azure_check_is_last
    (url : string) (s : state) (r : Response) (w : World) :
  transport url (world s) = (Return r, w) ->
  is_error_status r = false ->
  Substring "EnumerationResults" (text r) ->
  exists msg,
    check_bucket_access url s
    = (Return true, logged INFO msg (fetched url w s))
    /\ (msg = msg_listable_azure url <->
        ~ Substring "ListBucketResult" (text r)
        /\ ~ (Substring "Contents" (text r) /\ Substring "Name" (text r)))
    /\ (Substring "Contents" (text r) -> Substring "Name" (text r) ->
        msg = if contains "ListBucketResult" (text r)
              then msg_listable url else msg_readable_gcs url).
Proof.
  intros Hget Hok Hazure.
  rewrite (check_bucket_access_response _ _ _ _ Hget Hok). cbv zeta.
  assert (Hs : forall sub, Substring sub (text r)
                           <-> contains sub (text r) = true)
    by (intros sub; symmetry; apply contains_Substring).
  apply Hs in Hazure. rewrite Hazure.
  destruct (contains "ListBucketResult" (text r)) eqn:Hs3.
  - exists (msg_listable url). split; [reflexivity|].
    rewrite !Hs, Hs3. split; [split|reflexivity].
    + intros E. destruct (msg_s3_not_azure url E).
    + intros [Hn _]. destruct Hn. reflexivity.
  - destruct (contains "Contents" (text r)) eqn:Hc;
      destruct (contains "Name" (text r)) eqn:Hn; cbn [andb].
    + exists (msg_readable_gcs url). split; [reflexivity|].
      rewrite !Hs, Hs3, Hc, Hn. split; [split|reflexivity].
      * intros E. destruct (msg_gcs_not_azure url E).
      * intros [_ Hno]. destruct Hno. split; reflexivity.
    + exists (msg_listable_azure url). split; [reflexivity|].
      rewrite !Hs, Hs3, Hc, Hn. split; [split; [|reflexivity]|].
      * intros _. split; [discriminate|]. intros [_ E]; discriminate E.
      * intros _ E; discriminate E.
    + exists (msg_listable_azure url). split; [reflexivity|].
      rewrite !Hs, Hs3, Hc, Hn. split; [split; [|reflexivity]|].
      * intros _. split; [discriminate|]. intros [E _]; discriminate E.
      * intros E; discriminate E.
    + exists (msg_listable_azure url). split; [reflexivity|].
      rewrite !Hs, Hs3, Hc, Hn. split; [split; [|reflexivity]|].
      * intros _. split; [discriminate|]. intros [E _]; discriminate E.
      * intros E; discriminate E.
Qed.

(** C5.  For every domain [D] there are exactly 6 candidates and 18
    probe targets; the targets of candidate number [i] stand at
    positions [3i], [3i+1] and [3i+2] and are its S3, GCS and Azure
    URLs, in that order; and from any state, as long as [requests.get]
    keeps to its exception family, the loops of [scan_domain] finish
    and request exactly these 18 URLs in exactly this order. *)
Theorem candidates_and_targets_are_fixed (D : string) (s : state) :
  transport_contract ->
  List.length (generate_bucket_names D) = 6%nat
  /\ List.length (probe_targets D) = 18%nat
  /\ (forall i c,
        nth_error (generate_bucket_names D) i = Some c ->
        nth_error (probe_targets D) (3 * i)
        = Some ("https://" ++ c ++ ".s3.amazonaws.com")
        /\ nth_error (probe_targets D) (3 * i + 1)
           = Some ("https://storage.googleapis.com/" ++ c)
        /\ nth_error (probe_targets D) (3 * i + 2)
           = Some ("https://" ++ c ++ ".blob.core.windows.net"))
  /\ exists acc s',
       scan_names (generate_bucket_names D) [] s = (Return acc, s')
       /\ requested s' = (requested s ++ probe_targets D)%list.
Proof.
  intros Hc. split; [reflexivity|]. split; [reflexivity|]. split.
  - intros i c Hi.
    do 6 (destruct i as [|i];
          [cbn in Hi; injection Hi as <-; repeat split|]).
    destruct i; discriminate Hi.
  - rewrite scan_names_flat.
    destruct (scan_urls_returns (probe_targets D) [] s Hc)
      as (acc & s' & E & Hr & _).
    exists acc, s'. split; assumption.
Qed.

(** C6, where the code departs from it.  [is_valid_domain] returns
    [False], without consulting the resolver, for every name with a dot
    among its first three characters, that is, with a first label of
    fewer than three characters; [ab.com] is such a name, and it
    satisfies the hostname grammar of the specification.  So does
    [www.my-site.com], with a hyphen in its middle label, and it is
    rejected as well. *)
Theorem is_valid_domain_rejects_grammatical_names (s : state) :
  (forall domain i,
      (i < 3)%nat -> String.get i domain = Some "."%char ->
      is_valid_domain domain s = (Return false, s))
  /\ hostname_grammar "ab.com" = true
  /\ is_valid_domain "ab.com" s = (Return false, s)
  /\ hostname_grammar "www.my-site.com" = true
  /\ is_valid_domain "www.my-site.com" s = (Return false, s).
Proof.
  split; [|repeat split].
  intros domain i Hi Hget. unfold is_valid_domain.
  rewrite (domain_pattern_short_first_label domain i Hi Hget). reflexivity.
Qed.

(** C7.  When [is_valid_domain] returns [False], [scan_domain] returns
    at once: it logs the one record [Invalid domain: ...] at level
    ERROR, requests no URL and prints nothing. *)
Theorem invalid_domain_aborts_scan (domain : string) (s s' : state) :
  is_valid_domain domain s = (Return false, s') ->
  exists s'', scan_domain domain s = (Return tt, s'')
    /\ requested s'' = requested s
    /\ stdout s'' = stdout s
    /\ log s'' = (log s ++ [(ERROR, ("Invalid domain: " ++ domain)%string)])%list.
Proof.
  intros Hv.
  destruct (is_valid_domain_frame _ _ _ _ Hv) as (_ & Hl & Ho & Hr).
  exists (logged ERROR ("Invalid domain: " ++ domain) s'). split.
  - unfold scan_domain, bind. rewrite Hv. reflexivity.
  - rewrite logged_ERROR. cbn. rewrite Hl. repeat split; assumption.
Qed.

(** C9.  A response that passes [raise_for_status] and has an empty
    body matches no signature: [check_bucket_access] returns [False]
    through its last branch, whose debug record differs from the one
    of the denial branch, and the inner loop does not append the URL;
    the same holds for every probe that returns [False]. *)
Theorem empty_body_is_not_accessible
    (url : string) (s : state) (r : Response) (w : World) :
  transport url (world s) = (Return r, w) ->
  is_error_status r = false ->
  text r = "" ->
  check_bucket_access url s
  = (Return false,
     logged DEBUG (msg_does_not_appear url "") (fetched url w s))
  /\ (forall b, msg_does_not_appear url "" <> msg_likely_not url b)
  /\ (forall rest acc,
        scan_urls (url :: rest) acc s
        = scan_urls rest acc
            (logged DEBUG (msg_does_not_appear url "") (fetched url w s)))
  /\ (forall u s0 s0' rest acc,
        check_bucket_access u s0 = (Return false, s0') ->
        scan_urls (u :: rest) acc s0 = scan_urls rest acc s0').
Proof.
  intros Hget Hok Hbody.
  assert (Hchk : check_bucket_access url s
                 = (Return false,
                    logged DEBUG (msg_does_not_appear url "")
                      (fetched url w s))).
  { rewrite (check_bucket_access_response _ _ _ _ Hget Hok), Hbody.
    reflexivity. }
  split; [exact Hchk|]. split; [|split].
  - intros b. apply msg_fallthrough_not_denial.
  - intros rest acc. rewrite scan_urls_cons, Hchk. reflexivity.
  - intros u s0 s0' rest acc E. rewrite scan_urls_cons, E. reflexivity.
Qed.

(** C10.  For a response that passes [raise_for_status],
    [check_bucket_access] returns normally, and returns [True] exactly
    when the body contains [ListBucketResult], or both [Contents] and
    [Name], or [EnumerationResults]; otherwise it returns [False],
    whether or not the body contains [AccessDenied] or [NoSuchBucket]. *)
Theorem check_bucket_access_true_iff
    (url : string) (s : state) (r : Response) (w : World) :
  transport url (world s) = (Return r, w) ->
  is_error_status r = false ->
  exists b s',
    check_bucket_access url s = (Return b, s')
    /\ (b = true <-> accessible_signature (text r))
    /\ (~ accessible_signature (text r) -> b = false).
Proof.
  intros Hget Hok. unfold accessible_signature.
  rewrite (check_bucket_access_response _ _ _ _ Hget Hok). cbv zeta.
  assert (Hs : forall sub, Substring sub (text r)
                           <-> contains sub (text r) = true)
    by (intros sub; symmetry; apply contains_Substring).
  destruct (contains "ListBucketResult" (text r)) eqn:Hs3;
    [|destruct (contains "Contents" (text r)) eqn:Hc;
      destruct (contains "Name" (text r)) eqn:Hn; cbn [andb];
      [|destruct (contains "EnumerationResults" (text r)) eqn:Haz;
        [|destruct (contains "AccessDenied" (text r)
                    || contains "NoSuchBucket" (text r))]..]];
    eexists _, _; (split; [reflexivity|]);
    rewrite !Hs, ?Hs3, ?Hc, ?Hn, ?Haz;
    (split; [split|]); auto; intuition discriminate.
Qed.

End Claims.

(** * The claims at concrete inputs *)

(** C1 on a stub whose body holds both markers. *)
Lemma priority_listing_before_denial_witness :
  @check_bucket_access listing_and_denial s3_of_first_candidate
    (initial listing_and_denial tt)
  = (Return true,
     mkState (tt : @World listing_and_denial) INFO
       [(INFO, msg_listable s3_of_first_candidate)] []
       [s3_of_first_candidate]).
Proof.
  apply (@priority_listing_before_denial listing_and_denial
           s3_of_first_candidate (initial listing_and_denial tt)
           (mkResponse 200
              "<ListBucketResult><Code>AccessDenied</Code></ListBucketResult>")
           tt).
  - reflexivity.
  - reflexivity.
  - exists "<", "><Code>AccessDenied</Code></ListBucketResult>". reflexivity.
  - exists "<ListBucketResult><Code>", "</Code></ListBucketResult>".
    reflexivity.
Defined.

(** C2 fails: a 403 response whose body holds [ListBucketResult] is
    classified as not accessible. *)
Lemma forbidden_listing_is_denied :
  (400 <= 403 < 500)%Z
  /\ Substring "ListBucketResult" "<ListBucketResult></ListBucketResult>"
  /\ @transport forbidden_listing s3_of_first_candidate tt
     = (Return (mkResponse 403 "<ListBucketResult></ListBucketResult>"), tt)
  /\ fst (@check_bucket_access forbidden_listing s3_of_first_candidate
            (initial forbidden_listing tt))
     = Return false.
Proof.
  split; [lia|]. split; [|split; reflexivity].
  exists "<", "></ListBucketResult>". reflexivity.
Qed.

Lemma error_status_is_denied_witness :
  @check_bucket_access forbidden_listing s3_of_first_candidate
    (initial forbidden_listing tt)
  = (Return false,
     mkState (tt : @World forbidden_listing) INFO
       [(ERROR, msg_error s3_of_first_candidate "HTTPError")] []
       [s3_of_first_candidate]).
Proof.
  apply (@error_status_is_denied forbidden_listing s3_of_first_candidate
           (initial forbidden_listing tt)
           (mkResponse 403 "<ListBucketResult></ListBucketResult>") tt).
  - reflexivity.
  - cbn. lia.
Defined.

(** C3 fails: the first candidate is not the domain, and the second is
    not [D-bucket]. *)
Lemma first_candidate_is_not_the_domain :
  nth_error (generate_bucket_names "example.com") 0 <> Some "example.com"
  /\ nth_error (generate_bucket_names "example.com") 1
     <> Some "example.com-bucket".
Proof. split; discriminate. Qed.

(** C4 fails: with [EnumerationResults], [Contents] and [Name] in the
    body, the record that is logged is the GCS one. *)
Lemma gcs_fires_before_azure :
  let body :=
    "<EnumerationResults><Contents><Name>a</Name></Contents></EnumerationResults>" in
  @transport azure_with_contents s3_of_first_candidate tt
  = (Return (mkResponse 200 body), tt)
  /\ contains "EnumerationResults" body = true
  /\ contains "Contents" body = true
  /\ contains "Name" body = true
  /\ log (snd (@check_bucket_access azure_with_contents s3_of_first_candidate
                 (initial azure_with_contents tt)))
     = [(INFO, msg_readable_gcs s3_of_first_candidate)]
  /\ log (snd (@check_bucket_access azure_with_contents s3_of_first_candidate
                 (initial azure_with_contents tt)))
     <> [(INFO, msg_listable_azure s3_of_first_candidate)].
Proof. repeat split. discriminate. Qed.

Lemma azure_check_is_last_witness :
  exists msg,
    @check_bucket_access azure_with_contents s3_of_first_candidate
      (initial azure_with_contents tt)
    = (Return true,
       @logged azure_with_contents INFO msg
         (@fetched azure_with_contents s3_of_first_candidate tt
            (initial azure_with_contents tt)))
    /\ msg <> msg_listable_azure s3_of_first_candidate.
Proof.
  destruct (@azure_check_is_last azure_with_contents s3_of_first_candidate
              (initial azure_with_contents tt)
              (mkResponse 200
                 "<EnumerationResults><Contents><Name>a</Name></Contents></EnumerationResults>")
              tt)
    as (msg & Hrun & Hazure & _).
  - reflexivity.
  - reflexivity.
  - exists "<", "><Contents><Name>a</Name></Contents></EnumerationResults>".
    reflexivity.
  - exists msg. split; [exact Hrun|].
    intros E. apply Hazure in E. destruct E as [_ Hno]. apply Hno. split.
    + exists "<EnumerationResults><",
             "><Name>a</Name></Contents></EnumerationResults>".
      reflexivity.
    + exists "<EnumerationResults><Contents><",
             ">a</Name></Contents></EnumerationResults>".
      reflexivity.
Defined.

(** C5 on [example.com] with every connection refused. *)
Lemma candidates_and_targets_are_fixed_witness :
  List.length (generate_bucket_names "example.com") = 6%nat
  /\ List.length (probe_targets "example.com") = 18%nat
  /\ exists acc s',
       @scan_names refusing (generate_bucket_names "example.com") []
         (initial refusing tt) = (Return acc, s')
       /\ requested s' = probe_targets "example.com".
Proof.
  destruct (@candidates_and_targets_are_fixed refusing "example.com"
              (initial refusing tt) (fun _ _ => I))
    as (H6 & H18 & _ & acc & s' & Hrun & Hreq).
  split; [exact H6|]. split; [exact H18|].
  exists acc, s'. split; [exact Hrun | exact Hreq].
Defined.

(** C7 on the third scenario of the specification. *)
Lemma invalid_domain_aborts_scan_witness :
  exists s'',
    @scan_domain empty_bodies "not a domain" (initial empty_bodies tt)
    = (Return tt, s'')
    /\ requested s'' = []
    /\ stdout s'' = []
    /\ log s'' = [(ERROR, "Invalid domain: not a domain")].
Proof.
  apply (@invalid_domain_aborts_scan empty_bodies "not a domain"
           (initial empty_bodies tt) (initial empty_bodies tt)).
  reflexivity.
Defined.

(** C9 on a stub that answers 200 with an empty body, debug logging on. *)
Lemma empty_body_is_not_accessible_witness :
  @check_bucket_access empty_bodies s3_of_first_candidate
    (verbose empty_bodies tt)
  = (Return false,
     mkState (tt : @World empty_bodies) DEBUG
       [(DEBUG, msg_does_not_appear s3_of_first_candidate "")] []
       [s3_of_first_candidate]).
Proof.
  apply (@empty_body_is_not_accessible empty_bodies s3_of_first_candidate
           (verbose empty_bodies tt) (mkResponse 200 "") tt);
    reflexivity.
Defined.

(** C10 on the stub with both markers. *)
Lemma check_bucket_access_true_iff_witness :
  exists b s',
    @check_bucket_access listing_and_denial s3_of_first_candidate
      (initial listing_and_denial tt) = (Return b, s')
    /\ (b = true <->
        accessible_signature
          "<ListBucketResult><Code>AccessDenied</Code></ListBucketResult>").
Proof.
  destruct (@check_bucket_access_true_iff listing_and_denial
              s3_of_first_candidate (initial listing_and_denial tt)
              (mkResponse 200
                 "<ListBucketResult><Code>AccessDenied</Code></ListBucketResult>")
              tt)
    as (b & s' & Hrun & Hiff & _).
  - reflexivity.
  - reflexivity.
  - exists b, s'. split; [exact Hrun | exact Hiff].
Defined.

(** * Further properties of the program *)

(** ** One probe, whatever the transport answers *)

Section ProbeFrame.
Context `{net : Net}.

Lemma world_logged (l : level) (msg : string) (s : state) :
  world (logged l msg s) = world s.
Proof. unfold logged. destruct (_ <=? _)%Z; reflexivity. Qed.

Lemma root_level_logged (l : level) (msg : string) (s : state) :
  root_level (logged l msg s) = root_level s.
Proof. unfold logged. destruct (_ <=? _)%Z; reflexivity. Qed.

Lemma has_signature_branches (body : string) :
  has_signature body =
  if contains "ListBucketResult" body then true
  else if contains "Contents" body && contains "Name" body then true
  else contains "EnumerationResults" body.
Proof.
  unfold has_signature.
  destruct (contains "ListBucketResult" body); [reflexivity|].
  destruct (contains "Contents" body && contains "Name" body); reflexivity.
Qed.

(** The probe run step by step: the answer of the transport decides the
    result, and the state is the one after the request with at most one
    record logged. *)
Lemma check_bucket_access_run (u : string) (s : state)
    (a : result Response) (w : World) :
  transport u (world s) = (a, w) ->
  match a with
  | Raise (gaierror e) =>
      check_bucket_access u s = (Raise (gaierror e), fetched u w s)
  | Raise (OtherException e) =>
      check_bucket_access u s = (Raise (OtherException e), fetched u w s)
  | _ =>
      exists l msg,
        check_bucket_access u s
        = (Return (answer_is_accessible a), logged l msg (fetched u w s))
        /\ (l = INFO <-> answer_is_accessible a = true)
  end.
Proof.
  intros Hget. destruct a as [r|[e|e|e]].
  - cbn [answer_is_accessible]. destruct (is_error_status r) eqn:Hst.
    + exists ERROR, (msg_error u (HTTPError_str r)). split.
      * apply check_bucket_access_error_status; assumption.
      * cbn. split; discriminate.
    + rewrite (check_bucket_access_response _ _ _ _ Hget Hst). cbv zeta.
      rewrite has_signature_branches. cbn [negb andb].
      destruct (contains "ListBucketResult" (text r));
        [eexists INFO, _; split; [reflexivity | split; reflexivity]|].
      destruct (contains "Contents" (text r) && contains "Name" (text r));
        [eexists INFO, _; split; [reflexivity | split; reflexivity]|].
      destruct (contains "EnumerationResults" (text r));
        [eexists INFO, _; split; [reflexivity | split; reflexivity]|].
      destruct (contains "AccessDenied" (text r)
                || contains "NoSuchBucket" (text r));
        (eexists DEBUG, _; split; [reflexivity | split; discriminate]).
  - exists ERROR, (msg_error u e). split.
    + apply check_bucket_access_exception, Hget.
    + cbn. split; discriminate.
  - unfold check_bucket_access, try_except, bind, requests_get.
    rewrite Hget. reflexivity.
  - unfold check_bucket_access, try_except, bind, requests_get.
    rewrite Hget. reflexivity.
Qed.

Lemma check_bucket_access_frame (u : string) (s s' : state)
    (r : result bool) :
  check_bucket_access u s = (r, s') ->
  requested s' = (requested s ++ [u])%list
  /\ stdout s' = stdout s
  /\ root_level s' = root_level s.
Proof.
  intros Hrun.
  destruct (transport u (world s)) as [a w] eqn:Hget.
  pose proof (check_bucket_access_run u s a w Hget) as H.
  destruct a as [resp|[e|e|e]];
    try (destruct H as (l & msg & H & _));
    rewrite H in Hrun; injection Hrun as _ <-;
    rewrite ?requested_logged, ?stdout_logged, ?root_level_logged;
    repeat split.
Qed.

(** X1.  A probe hands its URL to [requests.get] exactly once, whether it
    returns or raises: afterwards the list of requests is longer by this
    one URL, the world is the one the transport left, nothing was
    printed and the level of the root logger is what it was.  There is
    no retry. *)
Theorem probe_requests_once (u : string) (s s' : state) (r : result bool) :
  check_bucket_access u s = (r, s') ->
  requested s' = (requested s ++ [u])%list
  /\ stdout s' = stdout s
  /\ root_level s' = root_level s
  /\ world s' = snd (transport u (world s)).
Proof.
  intros Hrun.
  destruct (check_bucket_access_frame _ _ _ _ Hrun) as (Hr & Ho & Hl).
  split; [exact Hr|]. split; [exact Ho|]. split; [exact Hl|].
  destruct (transport u (world s)) as [a w] eqn:Hget.
  pose proof (check_bucket_access_run u s a w Hget) as H.
  destruct a as [resp|[e|e|e]];
    try (destruct H as (l & msg & H & _));
    rewrite H in Hrun; injection Hrun as _ <-;
    rewrite ?world_logged; reflexivity.
Qed.

(** X2.  The result of a probe can be read off the log.  With the
    root logger at INFO or at DEBUG, the records that a returning probe
    adds to the log hold one of its three INFO messages for this URL
    (publicly listable, publicly readable (GCS), publicly listable
    (Azure)) exactly when the probe returned [True]. *)
Theorem probe_result_is_logged (u : string) (s s' : state) (b : bool) :
  root_level s = INFO \/ root_level s = DEBUG ->
  check_bucket_access u s = (Return b, s') ->
  exists recs,
    log s' = (log s ++ recs)%list
    /\ (b = true <->
        In (INFO, msg_listable u) recs
        \/ In (INFO, msg_readable_gcs u) recs
        \/ In (INFO, msg_listable_azure u) recs).
Proof.
  intros Hlev Hrun.
  assert (Hinfo : forall m s0, root_level s0 = root_level s ->
                    log (logged INFO m s0) = (log s0 ++ [(INFO, m)])%list).
  { intros m s0 E. unfold logged. rewrite E.
    destruct Hlev as [-> | ->]; reflexivity. }
  assert (Hother : forall l m s0, l <> INFO ->
                     exists recs,
                       log (logged l m s0) = (log s0 ++ recs)%list
                       /\ forall m', ~ In (INFO, m') recs).
  { intros l m s0 Hl. unfold logged. destruct (_ <=? _)%Z.
    - exists [(l, m)]. split; [reflexivity|].
      intros m' [E|[]]. injection E as E _. exact (Hl E).
    - exists []. rewrite app_nil_r. split; [reflexivity|]. intros m' []. }
  assert (Hno : forall l m s0, l <> INFO ->
                  exists recs,
                    log (logged l m s0) = (log s0 ++ recs)%list
                    /\ (false = true <->
                        In (INFO, msg_listable u) recs
                        \/ In (INFO, msg_readable_gcs u) recs
                        \/ In (INFO, msg_listable_azure u) recs)).
  { intros l m s0 Hl. destruct (Hother l m s0 Hl) as (recs & E & Hnone).
    exists recs. split; [exact E|]. split; [discriminate|].
    intros [H|[H|H]]; destruct (Hnone _ H). }
  destruct (transport u (world s)) as [[r|[e|e|e]] w] eqn:Hget.
  - destruct (is_error_status r) eqn:Hst.
    + rewrite (check_bucket_access_error_status _ _ _ _ Hget Hst) in Hrun.
      injection Hrun as <- <-. apply (Hno _ _ (fetched u w s)). discriminate.
    + rewrite (check_bucket_access_response _ _ _ _ Hget Hst) in Hrun.
      cbv zeta in Hrun.
      destruct (contains "ListBucketResult" (text r)).
      { injection Hrun as <- <-. eexists. split; [apply (Hinfo _ (fetched u w s)); reflexivity|].
        split; [intros _; left; left; reflexivity | reflexivity]. }
      destruct (contains "Contents" (text r) && contains "Name" (text r)).
      { injection Hrun as <- <-. eexists. split; [apply (Hinfo _ (fetched u w s)); reflexivity|].
        split; [intros _; right; left; left; reflexivity | reflexivity]. }
      destruct (contains "EnumerationResults" (text r)).
      { injection Hrun as <- <-. eexists. split; [apply (Hinfo _ (fetched u w s)); reflexivity|].
        split; [intros _; right; right; left; reflexivity | reflexivity]. }
      destruct (contains "AccessDenied" (text r)
                || contains "NoSuchBucket" (text r));
        injection Hrun as <- <-; apply (Hno _ _ (fetched u w s)); discriminate.
  - rewrite (check_bucket_access_exception _ _ _ _ Hget) in Hrun.
    injection Hrun as <- <-. apply (Hno _ _ (fetched u w s)). discriminate.
  - pose proof (check_bucket_access_run u s _ w Hget) as H. cbn in H.
    rewrite H in Hrun. discriminate Hrun.
  - pose proof (check_bucket_access_run u s _ w Hget) as H. cbn in H.
    rewrite H in Hrun. discriminate Hrun.
Qed.

End ProbeFrame.

(** ** The scan as a whole *)

Section ScanFrame.
Context `{net : Net}.

Lemma scan_urls_frame (urls acc : list string) (s s' : state)
    (r : result (list string)) :
  scan_urls urls acc s = (r, s') ->
  stdout s' = stdout s
  /\ root_level s' = root_level s
  /\ exists k, (k <= List.length urls)%nat
               /\ requested s' = (requested s ++ firstn k urls)%list
               /\ (forall acc', r = Return acc' -> k = List.length urls).
Proof.
  revert acc s. induction urls as [|u urls IH]; intros acc s Hrun.
  - injection Hrun as <- <-. repeat split. exists 0%nat. cbn.
    rewrite app_nil_r. auto.
  - rewrite scan_urls_cons in Hrun.
    destruct (check_bucket_access u s) as [[ok|x] s1] eqn:Hchk;
      destruct (check_bucket_access_frame _ _ _ _ Hchk) as (Hr & Ho & Hl).
    + destruct (IH _ _ Hrun) as (Ho' & Hl' & k & Hk & Hr' & Hall).
      split; [congruence|]. split; [congruence|].
      exists (S k). cbn [firstn List.length]. split; [lia|]. split.
      * rewrite Hr', Hr, <- app_assoc. reflexivity.
      * intros acc' E. rewrite (Hall acc' E). reflexivity.
    + injection Hrun as <- <-. split; [exact Ho|]. split; [exact Hl|].
      exists 1%nat. cbn [firstn List.length]. split; [lia|].
      split; [exact Hr|]. discriminate.
Qed.

Lemma print_each_run (lines : list string) (s : state) :
  print_each lines s =
  (Return tt,
   mkState (world s) (root_level s) (log s)
     (stdout s ++ map (fun bucket_url => "- " ++ bucket_url) lines)
     (requested s)).
Proof.
  revert s. induction lines as [|l lines IH]; intros s.
  - cbn. rewrite app_nil_r. destruct s; reflexivity.
  - cbn [print_each]. unfold bind, print. rewrite IH. unfold printed.
    cbn. rewrite <- app_assoc. reflexivity.
Qed.

(** [scan_domain] after the domain was found valid. *)
Lemma scan_domain_valid (D : string) (s s0 : state) :
  is_valid_domain D s = (Return true, s0) ->
  scan_domain D s =
  match scan_urls (probe_targets D) [] s0 with
  | (Return acc, s1) =>
      (Return tt,
       mkState (world s1) (root_level s1) (log s1)
         (stdout s1 ++ summary D acc) (requested s1))
  | (Raise x, s1) => (Raise x, s1)
  end.
Proof.
  intros Hv. unfold scan_domain, bind. rewrite Hv. cbn [negb].
  rewrite scan_names_flat. fold (probe_targets D).
  destruct (scan_urls (probe_targets D) [] s0) as [[acc|x] s1];
    [|reflexivity].
  destruct acc as [|a acc]; [reflexivity|].
  unfold print. rewrite print_each_run. unfold printed, summary.
  cbn [world root_level log stdout requested].
  rewrite <- app_assoc. reflexivity.
Qed.

Lemma probe_targets_https (D : string) :
  Forall (fun u => prefix "https://" u = true) (probe_targets D).
Proof.
  unfold probe_targets, generate_bucket_names.
  cbn [flat_map bucket_urls app].
  repeat (apply Forall_cons; [first [apply prefix_app | reflexivity]|]).
  apply Forall_nil.
Qed.

(** The inner loop collects the accessible targets, in order. *)
Lemma scan_urls_collects (urls acc : list string) (s : state) :
  transport_contract ->
  exists s',
    scan_urls urls acc s
    = (Return (acc ++ accessible_among urls (world s))%list, s')
    /\ stdout s' = stdout s
    /\ requested s' = (requested s ++ urls)%list.
Proof.
  intros Hc. revert acc s. induction urls as [|u urls IH]; intros acc s.
  - exists s. cbn. rewrite !app_nil_r. repeat split.
  - rewrite scan_urls_cons. cbn [accessible_among].
    pose proof (Hc u (world s)) as Hu.
    destruct (transport u (world s)) as [a w] eqn:Hget. cbn [fst] in Hu.
    pose proof (check_bucket_access_run u s a w Hget) as Hrun.
    assert (Hex : exists l msg,
               check_bucket_access u s
               = (Return (answer_is_accessible a),
                  logged l msg (fetched u w s))).
    { destruct a as [r|[e|e|e]]; try contradiction;
        destruct Hrun as (l & msg & H & _); exists l, msg; exact H. }
    destruct Hex as (l & msg & ->).
    destruct (IH (if answer_is_accessible a then (acc ++ [u])%list else acc)
                 (logged l msg (fetched u w s))) as (s' & Hs' & Ho & Hr).
    exists s'. rewrite Hs', world_logged. cbn [world fetched].
    split; [|split].
    + destruct (answer_is_accessible a); cbn [app];
        rewrite <- ?app_assoc; reflexivity.
    + rewrite Ho, stdout_logged. reflexivity.
    + rewrite Hr, requested_logged. cbn. rewrite <- app_assoc. reflexivity.
Qed.

(** X3.  On a domain that passes [is_valid_domain], and with
    [requests.get] keeping to its exception family, [scan_domain]
    returns after requesting the 18 targets, and what it prints is the
    summary of the targets whose answer passed [raise_for_status] and
    carried a signature, in the order of the targets: the single line
    [No publicly accessible buckets ...] when there is none, the heading
    and one line per URL otherwise. *)
Theorem scan_prints_the_accessible_targets (D : string) (s s0 : state) :
  transport_contract ->
  is_valid_domain D s = (Return true, s0) ->
  exists s',
    scan_domain D s = (Return tt, s')
    /\ stdout s'
       = (stdout s
          ++ summary D (accessible_among (probe_targets D) (world s0)))%list
    /\ requested s' = (requested s ++ probe_targets D)%list.
Proof.
  intros Hc Hv.
  destruct (is_valid_domain_frame _ _ _ _ Hv) as (_ & _ & Ho & Hr).
  destruct (scan_urls_collects (probe_targets D) [] s0 Hc)
    as (s1 & Hrun & Ho1 & Hr1).
  cbn [app] in Hrun.
  eexists. split.
  - rewrite (scan_domain_valid _ _ _ Hv), Hrun. reflexivity.
  - cbn [stdout requested]. split; congruence.
Qed.

Lemma accessible_among_still (urls : list string) (w : World) :
  (forall u w0, snd (transport u w0) = w0) ->
  accessible_among urls w
  = filter (fun u => answer_is_accessible (fst (transport u w))) urls.
Proof.
  intros Hstill. induction urls as [|u urls IH]; [reflexivity|].
  cbn [accessible_among filter].
  pose proof (Hstill u w) as Hw.
  destruct (transport u w) as [a w'] eqn:Hget. cbn [fst snd] in Hw |- *.
  subst w'. rewrite IH.
  destruct (answer_is_accessible a); reflexivity.
Qed.

(** The inner loop again, asking only that the answers met on the way
    are inside the family. *)
Lemma scan_urls_collects_along (urls acc : list string) (s : state) :
  in_family_along urls (world s) ->
  exists s',
    scan_urls urls acc s
    = (Return (acc ++ accessible_among urls (world s))%list, s')
    /\ stdout s' = stdout s
    /\ requested s' = (requested s ++ urls)%list
    /\ world s' = world_after urls (world s).
Proof.
  revert acc s. induction urls as [|u urls IH]; intros acc s Hfam.
  - exists s. cbn. rewrite !app_nil_r. repeat split.
  - rewrite scan_urls_cons.
    cbn [accessible_among in_family_along world_after] in Hfam |- *.
    destruct (transport u (world s)) as [a w] eqn:Hget.
    cbn [fst snd] in Hfam |- *. destruct Hfam as [Ha Hrest].
    pose proof (check_bucket_access_run u s a w Hget) as Hrun.
    assert (Hex : exists l msg,
               check_bucket_access u s
               = (Return (answer_is_accessible a),
                  logged l msg (fetched u w s))).
    { destruct a as [r|[e|e|e]]; try contradiction;
        destruct Hrun as (l & msg & H & _); exists l, msg; exact H. }
    destruct Hex as (l & msg & ->).
    destruct (IH (if answer_is_accessible a then (acc ++ [u])%list else acc)
                 (logged l msg (fetched u w s)))
      as (s' & Hs' & Ho & Hr & Hw).
    { rewrite world_logged. exact Hrest. }
    exists s'. rewrite Hs', world_logged. cbn [world fetched].
    split; [|split; [|split]].
    + destruct (answer_is_accessible a); cbn [app];
        rewrite <- ?app_assoc; reflexivity.
    + rewrite Ho, stdout_logged. reflexivity.
    + rewrite Hr, requested_logged. cbn. rewrite <- app_assoc. reflexivity.
    + rewrite Hw, world_logged. reflexivity.
Qed.



Lemma in_family_along_still (urls : list string) (w : World) :
  (forall u w0, snd (transport u w0) = w0) ->
  Forall (fun u => in_family (fst (transport u w))) urls ->
  in_family_along urls w.
Proof.
  intros Hstill Hall. induction Hall as [|u urls Hu _ IH]; [exact I|].
  cbn [in_family_along]. rewrite Hstill. split; assumption.
Qed.

(** X4.  When a request leaves the world as it was, so that the answer
    for a URL does not depend on what was requested before, and every
    target is answered by a response or by an exception of the
    [RequestException] family, the URLs that [scan_domain] reports for a
    valid domain are the targets whose own answer is accessible: the
    list of targets filtered, order and repetitions kept. *)
Theorem scan_reports_a_filter (D : string) (s s0 : state) :
  (forall u w0, snd (transport u w0) = w0) ->
  Forall (fun u => in_family (fst (transport u (world s0))))
         (probe_targets D) ->
  is_valid_domain D s = (Return true, s0) ->
  exists s',
    scan_domain D s = (Return tt, s')
    /\ stdout s'
       = (stdout s
          ++ summary D
               (filter (fun u =>
                          answer_is_accessible (fst (transport u (world s0))))
                       (probe_targets D)))%list.
Proof.
  intros Hstill Hfam Hv.
  destruct (is_valid_domain_frame _ _ _ _ Hv) as (_ & _ & Ho & _).
  destruct (scan_urls_collects_along (probe_targets D) [] s0
              (in_family_along_still _ _ Hstill Hfam))
    as (s1 & Hrun & Ho1 & _).
  cbn [app] in Hrun. rewrite accessible_among_still in Hrun by exact Hstill.
  eexists. split.
  - rewrite (scan_domain_valid _ _ _ Hv), Hrun. reflexivity.
  - cbn [stdout]. congruence.
Qed.

(** X5.  Whatever happens, [scan_domain] hands to [requests.get] only an
    initial part of the 18 targets of the domain, in their order; each of
    them starts with [https://]; and the level of the root logger is
    never changed.  A scan that returns has requested all 18 targets
    when the domain was found valid, and none when it was not. *)
Theorem scan_requests_only_targets (D : string) (s s' : state)
    (r : result unit) :
  scan_domain D s = (r, s') ->
  root_level s' = root_level s
  /\ Forall (fun u => prefix "https://" u = true) (probe_targets D)
  /\ exists k, (k <= 18)%nat
               /\ requested s' = (requested s ++ firstn k (probe_targets D))%list
               /\ (r = Return tt ->
                   (k = 18%nat /\ fst (is_valid_domain D s) = Return true)
                   \/ (k = 0%nat
                       /\ fst (is_valid_domain D s) = Return false)).
Proof.
  intros Hrun. split; [|split; [apply probe_targets_https|]];
    destruct (is_valid_domain D s) as [[[|]|x] s0] eqn:Hv;
    destruct (is_valid_domain_frame _ _ _ _ Hv) as (Hl & _ & Ho & Hr).
  - rewrite (scan_domain_valid _ _ _ Hv) in Hrun.
    destruct (scan_urls (probe_targets D) [] s0) as [[acc|x] s1] eqn:Hscan;
      destruct (scan_urls_frame _ _ _ _ _ Hscan) as (_ & Hl1 & _);
      injection Hrun as _ <-; cbn; congruence.
  - unfold scan_domain, bind in Hrun. rewrite Hv in Hrun.
    injection Hrun as _ <-. rewrite root_level_logged. exact Hl.
  - unfold scan_domain, bind in Hrun. rewrite Hv in Hrun.
    injection Hrun as _ <-. exact Hl.
  - rewrite (scan_domain_valid _ _ _ Hv) in Hrun.
    destruct (scan_urls (probe_targets D) [] s0) as [[acc|x] s1] eqn:Hscan;
      destruct (scan_urls_frame _ _ _ _ _ Hscan)
        as (_ & _ & k & Hk & Hr1 & Hall);
      injection Hrun as <- <-; exists k; (split; [exact Hk|]);
      cbn [requested]; (split; [congruence|]).
    + intros _. left. split; [apply (Hall acc eq_refl) | reflexivity].
    + discriminate.
  - unfold scan_domain, bind in Hrun. rewrite Hv in Hrun.
    injection Hrun as _ <-.
    exists 0%nat. split; [lia|]. rewrite requested_logged.
    cbn. rewrite app_nil_r. split; [exact Hr|]. intros _.
    right. split; reflexivity.
  - unfold scan_domain, bind in Hrun. rewrite Hv in Hrun.
    injection Hrun as <- <-. exists 0%nat. split; [lia|]. cbn.
    rewrite app_nil_r. split; [exact Hr|]. discriminate.
Qed.

(** X6.  An exception of [requests.get] outside the [RequestException]
    family is not caught: if it is raised by the probe of [u], after the
    targets [pre] before it were scanned, [scan_domain] raises it, and
    nothing is printed, not even the accessible URLs found among [pre]. *)
Theorem unexpected_exception_aborts_scan
    (D : string) (s s0 s1 : state) (pre post acc1 : list string)
    (u : string) (x : exn) (w : World) :
  is_valid_domain D s = (Return true, s0) ->
  probe_targets D = (pre ++ u :: post)%list ->
  scan_urls pre [] s0 = (Return acc1, s1) ->
  transport u (world s1) = (Raise x, w) ->
  (forall e, x <> RequestException e) ->
  scan_domain D s = (Raise x, fetched u w s1)
  /\ stdout (fetched u w s1) = stdout s
  /\ requested (fetched u w s1) = (requested s ++ pre ++ [u])%list.
Proof.
  intros Hv Hsplit Hpre Hget Hx.
  destruct (is_valid_domain_frame _ _ _ _ Hv) as (_ & _ & Ho & Hr).
  destruct (scan_urls_frame _ _ _ _ _ Hpre) as (Ho1 & _ & k & _ & Hr1 & Hall).
  rewrite (Hall acc1 eq_refl), firstn_all in Hr1.
  assert (Hchk : check_bucket_access u s1 = (Raise x, fetched u w s1)).
  { pose proof (check_bucket_access_run u s1 _ w Hget) as H.
    destruct x as [e|e|e]; [destruct (Hx e eq_refl) | exact H | exact H]. }
  split; [|split].
  - rewrite (scan_domain_valid _ _ _ Hv).
    rewrite Hsplit, scan_urls_app, Hpre, scan_urls_cons, Hchk. reflexivity.
  - cbn. congruence.
  - cbn. rewrite Hr1, Hr, <- app_assoc. reflexivity.
Qed.

End ScanFrame.

(** ** A failed probe and the rest of the scan *)

Section Locality.
Context `{net : Net}.



End Locality.



(** ** The verbose flag changes the log and nothing else *)

Section Verbosity.
Context `{net : Net}.

Lemma without_debug_app (a b : list (level * string)) :
  without_debug (a ++ b) = (without_debug a ++ without_debug b)%list.
Proof. apply filter_app. Qed.

Lemma level_blind_ret {A : Type} (a : A) : level_blind (ret a).
Proof. intros base sv si R. split; [reflexivity | exact R]. Qed.

Lemma level_blind_raise {A : Type} (x : exn) : level_blind (@raise _ A x).
Proof. intros base sv si R. split; [reflexivity | exact R]. Qed.

Lemma level_blind_bind {A B : Type} (m : M A) (k : A -> M B) :
  level_blind m -> (forall a, level_blind (k a)) -> level_blind (bind m k).
Proof.
  intros Hm Hk base sv si R. unfold bind.
  destruct (Hm base sv si R) as [Hres R'].
  destruct (m sv) as [[a|x] sv'], (m si) as [[a'|x'] si'];
    cbn [fst snd] in Hres, R'; try discriminate Hres.
  - injection Hres as <-. exact (Hk a base sv' si' R').
  - injection Hres as <-. split; [reflexivity | exact R'].
Qed.

Lemma level_blind_try {A : Type} (m : M A) (h : exn -> option (M A)) :
  level_blind m ->
  (forall x hx, h x = Some hx -> level_blind hx) ->
  level_blind (try_except m h).
Proof.
  intros Hm Hh base sv si R. unfold try_except.
  destruct (Hm base sv si R) as [Hres R'].
  destruct (m sv) as [[a|x] sv'], (m si) as [[a'|x'] si'];
    cbn [fst snd] in Hres, R'; try discriminate Hres.
  - injection Hres as <-. split; [reflexivity | exact R'].
  - injection Hres as <-. destruct (h x) as [hx|] eqn:Hx.
    + exact (Hh x hx Hx base sv' si' R').
    + split; [reflexivity | exact R'].
Qed.

Lemma level_blind_gethostbyname (host : string) :
  level_blind (socket_gethostbyname host).
Proof.
  intros base sv si (Hw & Ho & Hr & Hv & Hi & recs & Hlv & Hli).
  unfold socket_gethostbyname. rewrite Hw.
  destruct (resolver host (world si)) as [r w]. split; [reflexivity|].
  unfold quieter, resolved. cbn. repeat split; try assumption.
  exists recs. split; assumption.
Qed.

Lemma level_blind_requests_get (url : string) :
  level_blind (requests_get url).
Proof.
  intros base sv si (Hw & Ho & Hr & Hv & Hi & recs & Hlv & Hli).
  unfold requests_get. rewrite Hw.
  destruct (transport url (world si)) as [r w]. split; [reflexivity|].
  unfold quieter, fetched. cbn. repeat split; try assumption.
  - rewrite Hr. reflexivity.
  - exists recs. split; assumption.
Qed.

Lemma level_blind_raise_for_status (r : Response) :
  level_blind (raise_for_status r).
Proof.
  unfold raise_for_status. destruct (is_error_status r).
  - apply level_blind_raise.
  - apply level_blind_ret.
Qed.

Lemma level_blind_log (l : level) (msg : string) :
  level_blind (logging_log l msg).
Proof.
  intros base sv si (Hw & Ho & Hr & Hv & Hi & recs & Hlv & Hli).
  split; [reflexivity|]. unfold logging_log, logged. cbn [snd].
  rewrite Hv, Hi.
  assert (Hpass : (levelno DEBUG <=? levelno l)%Z = true)
    by (destruct l; reflexivity).
  rewrite Hpass. unfold quieter.
  destruct (levelno INFO <=? levelno l)%Z eqn:Hpi;
    cbn [world stdout requested root_level log];
    (repeat split; try assumption);
    exists (recs ++ [(l, msg)])%list;
    rewrite Hlv, ?Hli, without_debug_app, <- ?app_assoc;
    (split; [reflexivity|]);
    destruct l; try discriminate Hpi; cbn; rewrite ?app_nil_r; reflexivity.
Qed.

Lemma level_blind_print (line : string) : level_blind (print line).
Proof.
  intros base sv si (Hw & Ho & Hr & Hv & Hi & recs & Hlv & Hli).
  split; [reflexivity|]. unfold print, printed, quieter. cbn.
  repeat split; try assumption.
  - rewrite Ho. reflexivity.
  - exists recs. split; assumption.
Qed.

Lemma level_blind_is_valid_domain (domain : string) :
  level_blind (is_valid_domain domain).
Proof.
  unfold is_valid_domain. destruct (negb _); [apply level_blind_ret|].
  apply level_blind_try.
  - apply level_blind_bind; [apply level_blind_gethostbyname|].
    intros _. apply level_blind_ret.
  - intros x hx Hx. destruct x; try discriminate Hx.
    injection Hx as <-. apply level_blind_ret.
Qed.

Lemma level_blind_check_bucket_access (url : string) :
  level_blind (check_bucket_access url).
Proof.
  unfold check_bucket_access. apply level_blind_try.
  - apply level_blind_bind; [apply level_blind_requests_get|].
    intros r. apply level_blind_bind; [apply level_blind_raise_for_status|].
    intros _.
    repeat match goal with
           | |- level_blind (if ?c then _ else _) => destruct c
           end;
      (apply level_blind_bind; [apply level_blind_log|];
       intros _; apply level_blind_ret).
  - intros x hx Hx. destruct x; try discriminate Hx.
    injection Hx as <-.
    apply level_blind_bind; [apply level_blind_log|].
    intros _. apply level_blind_ret.
Qed.

Lemma level_blind_scan_urls (urls acc : list string) :
  level_blind (scan_urls urls acc).
Proof.
  revert acc. induction urls as [|u urls IH]; intros acc.
  - apply level_blind_ret.
  - cbn [scan_urls]. apply level_blind_bind.
    + apply level_blind_check_bucket_access.
    + intros ok. apply IH.
Qed.

Lemma level_blind_scan_names (names acc : list string) :
  level_blind (scan_names names acc).
Proof.
  revert acc. induction names as [|b names IH]; intros acc.
  - apply level_blind_ret.
  - cbn [scan_names]. apply level_blind_bind.
    + apply level_blind_scan_urls.
    + intros acc'. apply IH.
Qed.

Lemma level_blind_print_each (lines : list string) :
  level_blind (print_each lines).
Proof.
  induction lines as [|l lines IH].
  - apply level_blind_ret.
  - cbn [print_each]. apply level_blind_bind; [apply level_blind_print|].
    intros _. exact IH.
Qed.

Lemma level_blind_scan_domain (domain : string) :
  level_blind (scan_domain domain).
Proof.
  unfold scan_domain. apply level_blind_bind.
  - apply level_blind_is_valid_domain.
  - intros valid. destruct (negb valid); [apply level_blind_log|].
    apply level_blind_bind; [apply level_blind_scan_names|].
    intros acc. destruct acc as [|a acc]; [apply level_blind_print|].
    apply level_blind_bind; [apply level_blind_print|].
    intros _. apply level_blind_print_each.
Qed.

(** X7.  Started with the root logger at INFO, [main] with and without
    [--verbose] returns or raises alike, sends the same requests, leaves
    the same world and prints the same lines; the log of the quiet run is
    the log of the verbose run without its DEBUG records. *)
Theorem verbose_changes_only_the_log (domain : string) (s : state) :
  root_level s = INFO ->
  fst (main domain true s) = fst (main domain false s)
  /\ world (snd (main domain true s)) = world (snd (main domain false s))
  /\ stdout (snd (main domain true s)) = stdout (snd (main domain false s))
  /\ requested (snd (main domain true s))
     = requested (snd (main domain false s))
  /\ exists recs,
       log (snd (main domain true s)) = (log s ++ recs)%list
       /\ log (snd (main domain false s)) = (log s ++ without_debug recs)%list.
Proof.
  intros Hlev.
  assert (R : quieter (log s)
                (mkState (world s) DEBUG (log s) (stdout s) (requested s)) s).
  { unfold quieter. cbn. repeat split; try assumption.
    exists []. cbn. rewrite app_nil_r. split; reflexivity. }
  destruct (level_blind_scan_domain domain _ _ _ R)
    as (Hres & Hw & Ho & Hr & _ & _ & Hlog).
  unfold main, bind, setLevel, ret. cbn [fst snd].
  repeat split; assumption.
Qed.

End Verbosity.

(** ** The names that pass the pattern of line 17 *)

Lemma length_append (a b : string) :
  String.length (a ++ b) = (String.length a + String.length b)%nat.
Proof. induction a as [|c a IH]; cbn; [reflexivity | now rewrite IH]. Qed.

Lemma append_assoc (a b c : string) : (a ++ b) ++ c = a ++ b ++ c.
Proof. induction a as [|x a IH]; cbn; [reflexivity | now rewrite IH]. Qed.

Lemma all_chars_cons (p : ascii -> bool) (c : ascii) (s : string) :
  all_chars p (String c s) = p c && all_chars p s.
Proof. reflexivity. Qed.

Lemma all_chars_app (p : ascii -> bool) (a b : string) :
  all_chars p (a ++ b) = all_chars p a && all_chars p b.
Proof.
  induction a as [|c a IH]; [reflexivity|].
  cbn [append]. rewrite !all_chars_cons, IH, andb_assoc. reflexivity.
Qed.

Lemma all_chars_weaken (p q : ascii -> bool) (s : string) :
  (forall c, p c = true -> q c = true) ->
  all_chars p s = true -> all_chars q s = true.
Proof.
  intros Hpq. induction s as [|c s IH]; [reflexivity|].
  rewrite !all_chars_cons, !andb_true_iff. intros [Hc Hs]. auto.
Qed.

Lemma bool_eq_iff (a b : bool) : (a = true <-> b = true) -> a = b.
Proof. destruct a, b; intros [H1 H2]; auto; symmetry; auto. Qed.

(** [n] characters of a class. *)
Lemma pow_class (p : ascii -> bool) (n : nat) (s : string) :
  Re.pow (Re.lang (Re.Class p)) n s
  <-> String.length s = n /\ all_chars p s = true.
Proof.
  revert s. induction n as [|n IH]; intros s; cbn [Re.pow].
  - split.
    + intros ->. split; reflexivity.
    + intros [Hlen _]. destruct s; [reflexivity | discriminate Hlen].
  - split.
    + intros (s1 & s2 & -> & (c & -> & Hc) & Hp).
      apply IH in Hp. destruct Hp as [Hlen Hall].
      cbn [append String.length]. rewrite all_chars_cons, Hc, Hall, Hlen.
      split; reflexivity.
    + intros [Hlen Hall]. destruct s as [|c s]; [discriminate Hlen|].
      rewrite all_chars_cons in Hall. apply andb_true_iff in Hall.
      destruct Hall as [Hc Hall]. injection Hlen as Hlen.
      exists (String c ""), s. split; [reflexivity|]. split.
      * exists c. auto.
      * apply IH. auto.
Qed.

Lemma lang_repeat_class (lo : nat) (hi : option nat) (p : ascii -> bool)
    (s : string) :
  Re.lang (Re.Repeat lo hi (Re.Class p)) s
  <-> (lo <= String.length s)%nat
      /\ Re.within (String.length s) hi = true
      /\ all_chars p s = true.
Proof.
  cbn [Re.lang]. split.
  - intros (n & Hlo & Hhi & Hp). apply pow_class in Hp.
    destruct Hp as [<- Hall]. auto.
  - intros (Hlo & Hhi & Hall). exists (String.length s).
    split; [exact Hlo|]. split; [exact Hhi|]. apply pow_class. auto.
Qed.

(** One [\.[a-zA-Z]{2,}]. *)
Lemma lang_dot_label (t : string) :
  Re.lang (Re.Seq (Re.lit "."%char) (Re.Repeat 2 None (Re.Class Re.alpha))) t
  <-> exists l, t = String "."%char l /\ later_label_ok l = true.
Proof.
  change (Re.lang (Re.Seq ?a ?b) t)
    with (exists s1 s2, t = s1 ++ s2 /\ Re.lang a s1 /\ Re.lang b s2).
  split.
  - intros (s1 & s2 & -> & (c & -> & Hc) & Hl).
    apply Ascii.eqb_eq in Hc. subst c.
    apply lang_repeat_class in Hl. destruct Hl as (Hlen & _ & Hall).
    exists s2. split; [reflexivity|]. unfold later_label_ok.
    apply andb_true_iff. split; [apply Nat.leb_le, Hlen | exact Hall].
  - intros (l & -> & Hok). unfold later_label_ok in Hok.
    apply andb_true_iff in Hok. destruct Hok as [Hlen Hall].
    exists (String "."%char ""), l. split; [reflexivity|]. split.
    + exists "."%char. split; [reflexivity | apply Ascii.eqb_refl].
    + apply lang_repeat_class. split; [apply Nat.leb_le, Hlen|].
      split; [reflexivity | exact Hall].
Qed.

Lemma pow_dot_labels (n : nat) (t : string) :
  Re.pow (Re.lang (Re.Seq (Re.lit "."%char)
                     (Re.Repeat 2 None (Re.Class Re.alpha)))) n t
  <-> exists ls, List.length ls = n
                 /\ forallb later_label_ok ls = true
                 /\ t = dotted ls.
Proof.
  revert t. induction n as [|n IH]; intros t; cbn [Re.pow].
  - split.
    + intros ->. exists []. auto.
    + intros (ls & Hlen & _ & ->). destruct ls; [reflexivity|discriminate].
  - split.
    + intros (s1 & s2 & -> & H1 & Hp).
      apply lang_dot_label in H1. destruct H1 as (l & -> & Hok).
      apply IH in Hp. destruct Hp as (ls & <- & Hall & ->).
      exists (l :: ls). split; [reflexivity|]. split.
      * cbn. rewrite Hok, Hall. reflexivity.
      * reflexivity.
    + intros (ls & Hlen & Hall & ->). destruct ls as [|l ls]; [discriminate|].
      injection Hlen as Hlen. cbn in Hall. apply andb_true_iff in Hall.
      destruct Hall as [Hok Hall].
      exists (String "."%char l), (dotted ls). split; [reflexivity|]. split.
      * apply lang_dot_label. exists l. auto.
      * apply IH. exists ls. auto.
Qed.

(** The words of the pattern, spelled out. *)
Lemma lang_domain_pattern (s : string) :
  Re.lang domain_pattern s
  <-> exists c1 mid c3 ls,
        s = String c1 (mid ++ String c3 (dotted ls))
        /\ Re.alnum c1 = true
        /\ (1 <= String.length mid <= 61)%nat
        /\ all_chars Re.alnum_hyphen mid = true
        /\ Re.alnum c3 = true
        /\ ls <> []
        /\ forallb later_label_ok ls = true.
Proof.
  unfold domain_pattern.
  change (Re.lang (Re.Seq ?a ?b) s)
    with (exists s1 s2, s = s1 ++ s2 /\ Re.lang a s1 /\ Re.lang b s2).
  split.
  - intros (s1 & s2 & -> & (c1 & -> & H1) & Hrest).
    change (Re.lang (Re.Seq ?a ?b) s2)
      with (exists t1 t2, s2 = t1 ++ t2 /\ Re.lang a t1 /\ Re.lang b t2)
      in Hrest.
    destruct Hrest as (mid & s3 & -> & Hmid & Hrest).
    apply lang_repeat_class in Hmid. destruct Hmid as (Hlo & Hhi & Hall).
    change (Re.lang (Re.Seq ?a ?b) s3)
      with (exists t1 t2, s3 = t1 ++ t2 /\ Re.lang a t1 /\ Re.lang b t2)
      in Hrest.
    destruct Hrest as (s4 & s5 & -> & (c3 & -> & H3) & n & Hn & _ & Hp).
    apply pow_dot_labels in Hp. destruct Hp as (ls & Hlen & Hok & ->).
    exists c1, mid, c3, ls. split; [reflexivity|]. split; [exact H1|].
    cbn in Hhi. apply Nat.leb_le in Hhi. split; [lia|].
    split; [exact Hall|]. split; [exact H3|]. split; [|exact Hok].
    intros ->. cbn in Hlen. lia.
  - intros (c1 & mid & c3 & ls & -> & H1 & Hlen & Hall & H3 & Hne & Hok).
    exists (String c1 ""), (mid ++ String c3 (dotted ls)).
    split; [reflexivity|]. split; [exists c1; auto|].
    change (Re.lang (Re.Seq ?a ?b) ?w)
      with (exists t1 t2, w = t1 ++ t2 /\ Re.lang a t1 /\ Re.lang b t2).
    exists mid, (String c3 (dotted ls)). split; [reflexivity|]. split.
    + apply lang_repeat_class. split; [lia|]. split; [|exact Hall].
      cbn. apply Nat.leb_le. lia.
    + change (Re.lang (Re.Seq ?a ?b) ?w)
        with (exists t1 t2, w = t1 ++ t2 /\ Re.lang a t1 /\ Re.lang b t2).
      exists (String c3 ""), (dotted ls). split; [reflexivity|].
      split; [exists c3; auto|].
      exists (List.length ls). split.
      * destruct ls; [contradiction | cbn; lia].
      * split; [reflexivity|]. apply pow_dot_labels. exists ls. auto.
Qed.

(** *** Splitting at the dots *)

Lemma labels_cons_char (c : ascii) (s : string) :
  not_dot c = true ->
  labels (String c s) =
  match labels s with
  | l :: ls => String c l :: ls
  | [] => [String c EmptyString]
  end.
Proof.
  unfold not_dot. intros Hc. cbn [labels].
  destruct (Ascii.eqb c "."%char); [discriminate Hc | reflexivity].
Qed.

Lemma labels_dot (s : string) :
  labels (String "."%char s) = EmptyString :: labels s.
Proof. reflexivity. Qed.

Lemma labels_not_nil (s : string) : labels s <> [].
Proof.
  induction s as [|c s IH]; [discriminate|].
  cbn [labels]. destruct (Ascii.eqb c "."%char); [discriminate|].
  destruct (labels s); discriminate.
Qed.

Lemma labels_app_dotfree (l t : string) :
  all_chars not_dot l = true ->
  labels (l ++ t) =
  match labels t with
  | h :: r => (l ++ h) :: r
  | [] => [l]
  end.
Proof.
  induction l as [|c l IH]; intros Hl.
  - cbn [append]. destruct (labels t) as [|h r] eqn:Ht; [|reflexivity].
    destruct (labels_not_nil _ Ht).
  - rewrite all_chars_cons in Hl. apply andb_true_iff in Hl.
    destruct Hl as [Hc Hl]. cbn [append].
    rewrite (labels_cons_char _ _ Hc), (IH Hl).
    destruct (labels t) as [|h r] eqn:Ht; [|reflexivity].
    destruct (labels_not_nil _ Ht).
Qed.

(** Labels without dots, joined by dots, are found again by [labels]. *)
Lemma labels_dotted (l0 : string) (ls : list string) :
  all_chars not_dot l0 = true ->
  forallb (all_chars not_dot) ls = true ->
  labels (l0 ++ dotted ls) = l0 :: ls.
Proof.
  revert l0. induction ls as [|l ls IH]; intros l0 H0 Hls.
  - cbn [dotted]. rewrite (labels_app_dotfree _ _ H0). cbn.
    rewrite append_empty_r. reflexivity.
  - cbn [forallb] in Hls. apply andb_true_iff in Hls.
    destruct Hls as [Hl Hls].
    cbn [dotted]. rewrite (labels_app_dotfree _ _ H0), labels_dot.
    rewrite (IH l Hl Hls), append_empty_r. reflexivity.
Qed.

(** Every string is its labels joined by dots. *)
Lemma dotted_labels (s : string) :
  exists l0 ls, labels s = l0 :: ls /\ s = l0 ++ dotted ls.
Proof.
  induction s as [|c s (l0 & ls & Hl & Hs)].
  - exists "", []. split; reflexivity.
  - cbn [labels]. destruct (Ascii.eqb c "."%char) eqn:Hc.
    + apply Ascii.eqb_eq in Hc. subst c.
      exists "", (l0 :: ls). rewrite Hl. split; [reflexivity|].
      cbn. rewrite <- Hs. reflexivity.
    + rewrite Hl. exists (String c l0), ls. split; [reflexivity|].
      cbn. rewrite <- Hs. reflexivity.
Qed.

(** *** The first label *)

Lemma last_char_snoc (a : string) (c : ascii) :
  last_char (a ++ String c "") = Some c.
Proof.
  unfold last_char. rewrite length_append. cbn [String.length].
  replace (pred (String.length a + 1)) with (String.length a) by lia.
  induction a as [|d a IH]; [reflexivity | exact IH].
Qed.

Lemma snoc_split (s : string) :
  s <> "" -> exists a c, s = a ++ String c "".
Proof.
  induction s as [|d s IH]; intros Hne; [contradiction|].
  destruct s as [|e s].
  - exists "", d. reflexivity.
  - destruct IH as (a & c & E); [discriminate|].
    exists (String d a), c. cbn. rewrite <- E. reflexivity.
Qed.

Lemma first_label_ok_iff (l : string) :
  first_label_ok l = true
  <-> exists c1 mid c3,
        l = String c1 (mid ++ String c3 "")
        /\ Re.alnum c1 = true
        /\ (1 <= String.length mid <= 61)%nat
        /\ all_chars Re.alnum_hyphen mid = true
        /\ Re.alnum c3 = true.
Proof.
  unfold first_label_ok. rewrite !andb_true_iff, !Nat.leb_le. split.
  - intros ((((Hlo & Hhi) & Hall) & Hfirst) & Hlast).
    destruct l as [|c1 l]; [cbn in Hlo; lia|].
    destruct (snoc_split l) as (mid & c3 & ->);
      [intros ->; cbn in Hlo; lia|].
    change (String c1 (mid ++ String c3 ""))
      with (String c1 mid ++ String c3 "") in Hlast.
    rewrite last_char_snoc in Hlast. cbn [String.get] in Hfirst.
    cbn [String.length] in Hlo, Hhi. rewrite length_append in Hlo, Hhi.
    cbn [String.length] in Hlo, Hhi.
    rewrite all_chars_cons, all_chars_app, !andb_true_iff in Hall.
    exists c1, mid, c3. repeat split; try tauto; lia.
  - intros (c1 & mid & c3 & -> & H1 & Hlen & Hall & H3).
    change (String c1 (mid ++ String c3 ""))
      with (String c1 mid ++ String c3 "").
    rewrite last_char_snoc, H3.
    change (String c1 mid ++ String c3 "")
      with (String c1 (mid ++ String c3 "")).
    cbn [String.get String.length]. rewrite length_append.
    cbn [String.length].
    rewrite all_chars_cons, all_chars_app, all_chars_cons, Hall, H1.
    rewrite (alnum_is_alnum_hyphen _ H1), (alnum_is_alnum_hyphen _ H3).
    repeat split; lia.
Qed.

Lemma alnum_hyphen_not_dot (c : ascii) :
  Re.alnum_hyphen c = true -> not_dot c = true.
Proof.
  unfold not_dot. destruct (Ascii.eqb c "."%char) eqn:Hc; [|reflexivity].
  apply Ascii.eqb_eq in Hc. subst c. discriminate.
Qed.

Lemma alpha_not_dot (c : ascii) : Re.alpha c = true -> not_dot c = true.
Proof.
  intros H. apply alnum_hyphen_not_dot, alnum_is_alnum_hyphen.
  unfold Re.alnum. rewrite H. reflexivity.
Qed.

Lemma later_labels_dotfree (ls : list string) :
  forallb later_label_ok ls = true ->
  forallb (all_chars not_dot) ls = true.
Proof.
  induction ls as [|l ls IH]; [reflexivity|].
  cbn [forallb]. rewrite !andb_true_iff. intros [Hl Hls].
  split; [|exact (IH Hls)].
  unfold later_label_ok in Hl. apply andb_true_iff in Hl.
  exact (all_chars_weaken _ _ _ alpha_not_dot (proj2 Hl)).
Qed.

(** The pattern accepts a whole string exactly when its labels have the
    shape. *)
Lemma fullmatch_domain_pattern (s : string) :
  Re.fullmatch domain_pattern s = pattern_shape s.
Proof.
  apply bool_eq_iff. rewrite fullmatch_lang, lang_domain_pattern. split.
  - intros (c1 & mid & c3 & ls & -> & H1 & Hlen & Hall & H3 & Hne & Hok).
    assert (Hfirst : first_label_ok (String c1 (mid ++ String c3 "")) = true).
    { apply first_label_ok_iff. exists c1, mid, c3. auto. }
    assert (Hdot : all_chars not_dot (String c1 (mid ++ String c3 "")) = true).
    { unfold first_label_ok in Hfirst. rewrite !andb_true_iff in Hfirst.
      apply (all_chars_weaken _ _ _ alnum_hyphen_not_dot). tauto. }
    replace (String c1 (mid ++ String c3 (dotted ls)))
      with (String c1 (mid ++ String c3 "") ++ dotted ls)
      by (cbn; rewrite append_assoc; reflexivity).
    unfold pattern_shape.
    rewrite (labels_dotted _ _ Hdot (later_labels_dotfree _ Hok)).
    destruct ls as [|l1 ls]; [contradiction|].
    rewrite Hfirst, Hok. reflexivity.
  - unfold pattern_shape. intros Hshape.
    destruct (dotted_labels s) as (l0 & ls & Hl & Hs). rewrite Hl in Hshape.
    destruct ls as [|l1 ls]; [discriminate Hshape|].
    apply andb_true_iff in Hshape. destruct Hshape as [Hfirst Hok].
    apply first_label_ok_iff in Hfirst.
    destruct Hfirst as (c1 & mid & c3 & -> & H1 & Hlen & Hall & H3).
    exists c1, mid, c3, (l1 :: ls). split.
    + rewrite Hs. cbn. rewrite append_assoc. reflexivity.
    + repeat split; try assumption; try lia. discriminate.
Qed.

Lemma without_final_newline_iff (s s0 : string) :
  without_final_newline s = Some s0 <-> s = s0 ++ newline.
Proof.
  revert s0. induction s as [|c s IH]; intros s0.
  - cbn. split; [discriminate|]. destruct s0; discriminate.
  - cbn [without_final_newline]. destruct s as [|d s].
    + destruct (Ascii.eqb c (ascii_of_nat 10)) eqn:Hc.
      * apply Ascii.eqb_eq in Hc. subst c. split.
        -- intros E. injection E as <-. reflexivity.
        -- destruct s0 as [|e s0]; [reflexivity|].
           cbn. intros E. injection E as _ E. destruct s0; discriminate E.
      * split; [discriminate|]. destruct s0 as [|e s0]; cbn; intros E.
        -- injection E as ->. rewrite Ascii.eqb_refl in Hc. discriminate.
        -- injection E as _ E. destruct s0; discriminate E.
    + destruct (without_final_newline (String d s)) as [t|] eqn:Ht; cbn.
      * pose proof (proj1 (IH t) eq_refl) as Ht'. split.
        -- intros E. injection E as <-. cbn. rewrite <- Ht'. reflexivity.
        -- destruct s0 as [|e s0]; cbn; intros E; [discriminate E|].
           injection E as <- E. apply IH in E. congruence.
      * split; [discriminate|]. destruct s0 as [|e s0]; cbn; intros E;
          [discriminate E|].
        injection E as _ E. apply IH in E. discriminate E.
Qed.

(** [re.match] with the pattern of line 17, on every string. *)
Lemma match_anchored_domain_pattern (domain : string) :
  Re.match_anchored domain_pattern domain
  = pattern_shape domain
    || match without_final_newline domain with
       | Some d => pattern_shape d
       | None => false
       end.
Proof.
  apply bool_eq_iff. rewrite match_anchored_lang, orb_true_iff.
  rewrite <- fullmatch_lang, fullmatch_domain_pattern. split.
  - intros [H|(s0 & E & H)]; [left; exact H|]. right.
    apply without_final_newline_iff in E. rewrite E.
    rewrite <- fullmatch_lang, fullmatch_domain_pattern in H. exact H.
  - intros [H|H]; [left; exact H|]. right.
    destruct (without_final_newline domain) as [d|] eqn:E;
      [|discriminate H].
    apply without_final_newline_iff in E. exists d. split; [exact E|].
    rewrite <- fullmatch_lang, fullmatch_domain_pattern. exact H.
Qed.

(** X8.  What [is_valid_domain] does with every string.  The pattern of
    line 17 accepts exactly the names with two labels or more whose first
    label has 3 to 63 letters, digits and hyphens, neither the first nor
    the last a hyphen, and whose other labels are made of two letters or
    more and of letters only, and these names followed by one newline.
    For any other string the result is [False] and the resolver is not
    asked; for an accepted one the resolver is asked once: an address
    gives [True], [gaierror] gives [False], and any other exception is
    raised.  The log, the output and the requests are never touched. *)
Theorem is_valid_domain_spec `{net : Net} (domain : string) (s : state) :
  is_valid_domain domain s =
  if pattern_shape domain
     || match without_final_newline domain with
        | Some d => pattern_shape d
        | None => false
        end
  then match resolver domain (world s) with
       | (Return _, w) => (Return true, resolved w s)
       | (Raise (gaierror _), w) => (Return false, resolved w s)
       | (Raise x, w) => (Raise x, resolved w s)
       end
  else (Return false, s).
Proof.
  unfold is_valid_domain. rewrite match_anchored_domain_pattern.
  destruct (pattern_shape domain || _); [|reflexivity].
  cbn [negb]. unfold try_except, bind, socket_gethostbyname, ret.
  destruct (resolver domain (world s)) as [[ip|[e|e|e]] w]; reflexivity.
Qed.

(** *** What an accepted name is made of *)

Lemma alpha_domain_char (c : ascii) :
  Re.alpha c = true -> domain_char c = true.
Proof.
  intros H. unfold domain_char, Re.alnum_hyphen, Re.alnum.
  rewrite H. reflexivity.
Qed.

Lemma alnum_hyphen_domain_char (c : ascii) :
  Re.alnum_hyphen c = true -> domain_char c = true.
Proof. intros H. unfold domain_char. rewrite H. reflexivity. Qed.

Lemma dotted_chars (ls : list string) :
  forallb later_label_ok ls = true ->
  all_chars domain_char (dotted ls) = true.
Proof.
  induction ls as [|l ls IH]; [reflexivity|].
  cbn [forallb dotted]. rewrite andb_true_iff. intros [Hl Hls].
  unfold later_label_ok in Hl. apply andb_true_iff in Hl.
  rewrite all_chars_cons, all_chars_app, (IH Hls).
  rewrite (all_chars_weaken _ _ _ alpha_domain_char (proj2 Hl)).
  reflexivity.
Qed.

Lemma pattern_shape_facts (d : string) :
  pattern_shape d = true ->
  all_chars domain_char d = true
  /\ (6 <= String.length d)%nat
  /\ Substring "." d.
Proof.
  rewrite <- fullmatch_domain_pattern, fullmatch_lang, lang_domain_pattern.
  intros (c1 & mid & c3 & ls & -> & H1 & Hlen & Hall & H3 & Hne & Hok).
  destruct ls as [|l1 ls]; [contradiction|].
  split; [|split].
  - rewrite all_chars_cons, all_chars_app, all_chars_cons.
    rewrite (dotted_chars _ Hok).
    rewrite (all_chars_weaken _ _ _ alnum_hyphen_domain_char Hall).
    rewrite !alnum_hyphen_domain_char
      by (apply alnum_is_alnum_hyphen; assumption).
    reflexivity.
  - cbn [forallb] in Hok. apply andb_true_iff in Hok.
    destruct Hok as [Hl1 _]. unfold later_label_ok in Hl1.
    apply andb_true_iff in Hl1. destruct Hl1 as [Hl1 _].
    apply Nat.leb_le in Hl1.
    cbn [String.length dotted]. rewrite length_append.
    cbn [String.length]. rewrite length_append. lia.
  - exists (String c1 (mid ++ String c3 "")), (l1 ++ dotted ls).
    cbn. rewrite append_assoc. reflexivity.
Qed.

(** *** When two candidates coincide *)

Lemma count_char_app (c : ascii) (a b : string) :
  count_char c (a ++ b) = (count_char c a + count_char c b)%nat.
Proof.
  induction a as [|d a IH]; [reflexivity|].
  cbn [append count_char]. rewrite IH. lia.
Qed.

Lemma count_char_Substring (c : ascii) (s : string) :
  count_char c s <> 0%nat <-> Substring (String c "") s.
Proof.
  split.
  - induction s as [|d s IH]; cbn [count_char]; [contradiction|].
    destruct (Ascii.eqb d c) eqn:Hd.
    + intros _. apply Ascii.eqb_eq in Hd. subst d. exists "", s. reflexivity.
    + intros H. destruct (IH H) as (pre & post & ->).
      exists (String d pre), post. reflexivity.
  - intros (pre & post & ->). rewrite !count_char_app. cbn [count_char].
    rewrite Ascii.eqb_refl. lia.
Qed.

Lemma str_replace_no_old (old new : ascii) (s : string) :
  count_char old s = 0%nat -> str_replace old new s = s.
Proof.
  induction s as [|d s IH]; [reflexivity|].
  cbn [count_char str_replace]. destruct (Ascii.eqb d old); [discriminate|].
  intros H. rewrite (IH H). reflexivity.
Qed.

Lemma str_replace_removes (old new : ascii) (s : string) :
  old <> new -> count_char old (str_replace old new s) = 0%nat.
Proof.
  intros Hne. induction s as [|d s IH]; [reflexivity|].
  cbn [str_replace count_char]. rewrite IH.
  destruct (Ascii.eqb d old) eqn:Hd.
  - destruct (Ascii.eqb new old) eqn:Hn; [|reflexivity].
    apply Ascii.eqb_eq in Hn. congruence.
  - rewrite Hd. reflexivity.
Qed.

(** Two ways of cutting one string: the shorter head is a head of the
    longer. *)
Lemma append_eq_split (a b c d : string) :
  a ++ b = c ++ d ->
  (String.length a <= String.length c)%nat ->
  exists m, c = a ++ m /\ b = m ++ d.
Proof.
  revert c. induction a as [|x a IH]; intros c E Hlen.
  - exists c. split; [reflexivity | exact E].
  - destruct c as [|y c]; [cbn in Hlen; lia|].
    cbn in E, Hlen. injection E as <- E.
    destruct (IH c E) as (m & -> & ->); [lia|].
    exists m. split; reflexivity.
Qed.

(** If [D ++ u = v ++ D] then [D] is made of the characters of [v]. *)
Lemma conjugate_chars (u v : string) (c : ascii) (n : nat) (D : string) :
  v <> "" ->
  count_char c v = 0%nat ->
  (String.length D <= n)%nat ->
  D ++ u = v ++ D ->
  count_char c D = 0%nat.
Proof.
  intros Hv Hc. revert D. induction n as [|n IH]; intros D Hlen E.
  - destruct D; [reflexivity | cbn in Hlen; lia].
  - destruct (Nat.le_gt_cases (String.length D) (String.length v)) as [Hle|Hgt].
    + destruct (append_eq_split _ _ _ _ E Hle) as (m & Ev & _).
      rewrite Ev, count_char_app in Hc. lia.
    + symmetry in E.
      destruct (append_eq_split _ _ _ _ E) as (m & ED & ED'); [lia|].
      assert (Hm : count_char c m = 0%nat).
      { apply IH.
        - assert (String.length v <> 0)%nat by (destruct v; [contradiction | discriminate]).
          rewrite ED, length_append in Hlen. lia.
        - rewrite <- ED'. exact ED. }
      rewrite ED, count_char_app. lia.
Qed.

Lemma count_eq (c : ascii) (a b : string) :
  a = b -> count_char c a = count_char c b.
Proof. intros ->. reflexivity. Qed.

Lemma length_eq (a b : string) : a = b -> String.length a = String.length b.
Proof. intros ->. reflexivity. Qed.

Lemma candidates_distinct (D : string) :
  count_char "."%char D <> 0%nat -> NoDup (generate_bucket_names D).
Proof.
  intros Hdot.
  assert (Hdash : forall u v, v <> "" -> count_char "."%char v = 0%nat ->
                              D ++ u <> v ++ D).
  { intros u v Hv Hc E.
    apply Hdot, (conjugate_chars u v _ (String.length D) D Hv Hc);
      [lia | exact E]. }
  unfold generate_bucket_names.
  repeat (apply NoDup_cons; [|]); [..|apply NoDup_nil];
    cbn [In]; intros H;
    repeat match type of H with
           | _ \/ _ => destruct H as [H|H]
           | False => destruct H
           end;
    first
      [ apply length_eq in H;
        rewrite ?length_append, ?str_replace_length in H;
        cbn [String.length] in H; lia
      | apply (count_eq "k"%char) in H;
        rewrite ?count_char_app in H; cbn in H; lia
      | apply app_inv_head_str in H; discriminate H
      | discriminate H
      | apply (count_eq "."%char) in H;
        rewrite str_replace_removes in H by discriminate; lia
      | revert H; apply Hdash; [discriminate | reflexivity]
      | symmetry in H; revert H; apply Hdash; [discriminate | reflexivity] ].
Qed.

(** X9.  The six candidates of a domain are pairwise different exactly
    when the domain contains a dot.  Without a dot the third and the
    fourth candidate are the same name, and it is probed twice. *)
Theorem candidates_distinct_iff_dot (D : string) :
  NoDup (generate_bucket_names D) <-> Substring "." D.
Proof.
  split.
  - intros Hnd. apply count_char_Substring. intros H0.
    unfold generate_bucket_names in Hnd.
    rewrite (str_replace_no_old _ _ _ H0) in Hnd.
    inversion Hnd as [|? ? _ Hnd1]. inversion Hnd1 as [|? ? _ Hnd2].
    inversion Hnd2 as [|? ? Hin _]. apply Hin. left. reflexivity.
  - intros Hdot. apply candidates_distinct, count_char_Substring, Hdot.
Qed.

(** X10.  A name that [is_valid_domain] accepts is made of letters,
    digits, hyphens and dots only, apart from one newline that may end
    it; it has six characters or more before that newline, and a dot.
    Its six candidates are therefore pairwise different. *)
Theorem accepted_domain_is_clean `{net : Net}
    (domain : string) (s s' : state) :
  is_valid_domain domain s = (Return true, s') ->
  (exists d, (domain = d \/ domain = d ++ newline)
             /\ all_chars domain_char d = true
             /\ (6 <= String.length d)%nat)
  /\ Substring "." domain
  /\ NoDup (generate_bucket_names domain).
Proof.
  intros Hv. unfold is_valid_domain in Hv.
  rewrite match_anchored_domain_pattern in Hv.
  assert (H : exists d, (domain = d \/ domain = d ++ newline)
                        /\ pattern_shape d = true).
  { destruct (pattern_shape domain) eqn:Hshape.
    - exists domain. auto.
    - cbn [orb] in Hv.
      destruct (without_final_newline domain) as [d|] eqn:E;
        [|discriminate Hv].
      destruct (pattern_shape d) eqn:Hd; [|discriminate Hv].
      apply without_final_newline_iff in E. exists d. auto. }
  destruct H as (d & Hd & Hshape).
  destruct (pattern_shape_facts d Hshape) as (Hall & Hlen & Hdot).
  assert (Hdot' : Substring "." domain).
  { destruct Hd as [->| ->]; [exact Hdot|].
    destruct Hdot as (pre & post & ->). exists pre, (post ++ newline).
    rewrite !append_assoc. reflexivity. }
  split; [exists d; auto|]. split; [exact Hdot'|].
  apply candidates_distinct, count_char_Substring, Hdot'.
Qed.

(** X11.  The pattern ends with [$], so a newline after an accepted name
    does not make it fail: when [d] has the shape and the resolver knows
    [d] followed by a newline, [is_valid_domain] returns [True] for that
    string. *)
Theorem trailing_newline_is_accepted `{net : Net}
    (d : string) (s : state) (ip : string) (w : World) :
  pattern_shape d = true ->
  resolver (d ++ newline) (world s) = (Return ip, w) ->
  is_valid_domain (d ++ newline) s = (Return true, resolved w s).
Proof.
  intros Hshape Hdns. unfold is_valid_domain.
  rewrite match_anchored_domain_pattern.
  rewrite (proj2 (without_final_newline_iff (d ++ newline) d) eq_refl).
  rewrite Hshape, orb_true_r. cbn [negb].
  unfold try_except, bind, socket_gethostbyname, ret.
  rewrite Hdns. reflexivity.
Qed.

(** ** The size of the records *)

Lemma length_slice_to (n : nat) (s : string) :
  String.length (slice_to n s) = Nat.min n (String.length s).
Proof.
  unfold slice_to. revert s. induction n as [|n IH]; intros s.
  - destruct s; reflexivity.
  - destruct s as [|c s]; [reflexivity|].
    cbn [substring String.length]. rewrite IH. reflexivity.
Qed.

(** X12.  However long the body of a response that passes
    [raise_for_status], the record that the probe offers to the logger
    holds at most the first 100 characters of it: its message is never
    longer than the URL plus 174 characters. *)
Theorem record_of_a_response_is_short `{net : Net}
    (u : string) (s : state) (r : Response) (w : World) :
  transport u (world s) = (Return r, w) ->
  is_error_status r = false ->
  exists b l msg,
    check_bucket_access u s = (Return b, logged l msg (fetched u w s))
    /\ (String.length msg <= String.length u + 174)%nat.
Proof.
  intros Hget Hok.
  rewrite (check_bucket_access_response _ _ _ _ Hget Hok). cbv zeta.
  repeat match goal with
         | |- context [if ?c then _ else _] => destruct c
         end;
    eexists _, _, _; (split; [reflexivity|]);
    unfold msg_listable, msg_readable_gcs, msg_listable_azure,
      msg_likely_not, msg_does_not_appear;
    rewrite !length_append, ?length_slice_to; cbn [String.length]; lia.
Qed.

(** * The further properties at concrete inputs *)

Lemma probe_requests_once_witness :
  requested (snd (@check_bucket_access refusing s3_of_first_candidate
                    (initial refusing tt)))
  = [s3_of_first_candidate].
Proof.
  exact (proj1 (@probe_requests_once refusing s3_of_first_candidate
                  (initial refusing tt) _ _ (surjective_pairing _))).
Defined.

Lemma probe_result_is_logged_witness :
  exists recs,
    log (snd (@check_bucket_access listing_and_denial s3_of_first_candidate
                (initial listing_and_denial tt)))
    = recs
    /\ (true = true <->
        In (INFO, msg_listable s3_of_first_candidate) recs
        \/ In (INFO, msg_readable_gcs s3_of_first_candidate) recs
        \/ In (INFO, msg_listable_azure s3_of_first_candidate) recs).
Proof.
  destruct (@probe_result_is_logged listing_and_denial s3_of_first_candidate
              (initial listing_and_denial tt)
              (snd (@check_bucket_access listing_and_denial
                      s3_of_first_candidate (initial listing_and_denial tt)))
              true (or_introl eq_refl) eq_refl)
    as (recs & Hlog & Hiff).
  exists recs. split; [exact Hlog | exact Hiff].
Defined.

Lemma scan_prints_the_accessible_targets_witness :
  exists s',
    @scan_domain empty_bodies "example.com" (initial empty_bodies tt)
    = (Return tt, s')
    /\ stdout s'
       = ["No publicly accessible buckets found for domain example.com."].
Proof.
  destruct (@scan_prints_the_accessible_targets empty_bodies "example.com"
              (initial empty_bodies tt) (initial empty_bodies tt)
              (fun _ _ => I) eq_refl)
    as (s' & Hrun & Hout & _).
  exists s'. split; [exact Hrun | exact Hout].
Defined.

Lemma scan_reports_a_filter_witness :
  exists s',
    @scan_domain listing_and_denial "example.com"
      (initial listing_and_denial tt)
    = (Return tt, s')
    /\ List.length (stdout s') = 19%nat.
Proof.
  destruct (@scan_reports_a_filter listing_and_denial "example.com"
              (initial listing_and_denial tt) (initial listing_and_denial tt)
              (fun _ _ => eq_refl) (proj2 (Forall_forall _ _) (fun _ _ => I)) eq_refl)
    as (s' & Hrun & Hout).
  exists s'. split; [exact Hrun|]. rewrite Hout. reflexivity.
Defined.

Lemma scan_requests_only_targets_witness :
  root_level (snd (@scan_domain refusing "example.com" (initial refusing tt)))
  = INFO.
Proof.
  exact (proj1 (@scan_requests_only_targets refusing "example.com"
                  (initial refusing tt) _ _ (surjective_pairing _))).
Defined.

Lemma unexpected_exception_aborts_scan_witness :
  @scan_domain crashing "example.com" (initial crashing tt)
  = (Raise (OtherException "unexpected"),
     @fetched crashing s3_of_first_candidate tt (initial crashing tt)).
Proof.
  refine (proj1 (@unexpected_exception_aborts_scan crashing "example.com"
                   (initial crashing tt) (initial crashing tt)
                   (initial crashing tt) [] (tl (probe_targets "example.com"))
                   [] s3_of_first_candidate (OtherException "unexpected") tt
                   eq_refl eq_refl eq_refl eq_refl _)).
  intros e. discriminate.
Defined.

Lemma verbose_changes_only_the_log_witness :
  stdout (snd (@main listing_and_denial "example.com" true
                 (initial listing_and_denial tt)))
  = stdout (snd (@main listing_and_denial "example.com" false
                   (initial listing_and_denial tt))).
Proof.
  destruct (@verbose_changes_only_the_log listing_and_denial "example.com"
              (initial listing_and_denial tt) eq_refl)
    as (_ & _ & Hout & _).
  exact Hout.
Defined.

Lemma candidates_distinct_iff_dot_witness :
  NoDup (generate_bucket_names "example.com").
Proof.
  apply (proj2 (candidates_distinct_iff_dot "example.com")).
  exists "example", "com". reflexivity.
Defined.

Lemma accepted_domain_is_clean_witness :
  Substring "." "example.com" /\ NoDup (generate_bucket_names "example.com").
Proof.
  exact (proj2 (@accepted_domain_is_clean empty_bodies "example.com"
                  (initial empty_bodies tt) (initial empty_bodies tt)
                  eq_refl)).
Defined.

Lemma trailing_newline_is_accepted_witness :
  @is_valid_domain empty_bodies ("example.com" ++ newline)
    (initial empty_bodies tt)
  = (Return true, @resolved empty_bodies tt (initial empty_bodies tt)).
Proof.
  apply (@trailing_newline_is_accepted empty_bodies "example.com"
           (initial empty_bodies tt) "192.0.2.1" tt);
    reflexivity.
Defined.

Lemma record_of_a_response_is_short_witness :
  exists b l msg,
    @check_bucket_access listing_and_denial s3_of_first_candidate
      (initial listing_and_denial tt)
    = (Return b,
       @logged listing_and_denial l msg
         (@fetched listing_and_denial s3_of_first_candidate tt
            (initial listing_and_denial tt)))
    /\ (String.length msg <= 217)%nat.
Proof.
  apply (@record_of_a_response_is_short listing_and_denial
           s3_of_first_candidate (initial listing_and_denial tt)
           (mkResponse 200
              "<ListBucketResult><Code>AccessDenied</Code></ListBucketResult>")
           tt);
    reflexivity.
Defined.
